(** * Eitaa channel crawler: a shallow embedding and its checked properties

    The development follows the Python sources of the crawler:
    - [app/data/storage_strategies.py] and [app/kafka/kafka_manager.py]
      (module [Storage]),
    - [app/data/data_handlers.py] (module [Handlers]),
    - [app/network/network_manager.py] (module [Network]),
    - [app/network/proxy_manager.py] (module [Proxy]),
    - [app/crawler.py] (module [Crawler]),
    - [app/eita_crawler.py] (module [App]).

    Everything the interpreter, the network, the broker and the clock decide
    is an explicit oracle argument; files, dictionaries and the crawler's
    attributes are explicit state. *)

From Stdlib Require Import ZArith String Ascii List Lia Bool DecimalString.
From stdpp Require Import gmap strings list fin_maps sorting.

Local Open Scope string_scope.
Local Open Scope Z_scope.

(** ** Python string helpers *)

Module Py.

(** [s.startswith(p)] *)
Fixpoint startswith (p s : string) : bool :=
  match p, s with
  | EmptyString, _ => true
  | String a p', String b s' => if Ascii.eqb a b then startswith p' s' else false
  | String _ _, EmptyString => false
  end.

(** [p in s] for strings: [p] occurs at some offset of [s]. *)
Fixpoint contains (p s : string) : bool :=
  startswith p s ||
  match s with
  | EmptyString => false
  | String _ s' => contains p s'
  end.

(** [s.endswith(p)] *)
Fixpoint endswith (p s : string) : bool :=
  String.eqb p s ||
  match s with
  | EmptyString => false
  | String _ s' => endswith p s'
  end.

(** [not s.strip("_")]: the string holds nothing but underscores. *)
Fixpoint strip_underscore_empty (s : string) : bool :=
  match s with
  | EmptyString => true
  | String a s' => Ascii.eqb a "_"%char && strip_underscore_empty s'
  end.

(** [str(n)] for a non-negative integer. *)
Definition str_of_nat (n : nat) : string :=
  NilZero.string_of_uint (Nat.to_uint n).

(** The order [sorted] uses on [str]: lexicographic on code points. *)
Definition str_le (a b : string) : Prop := String.leb a b = true.

#[export] Instance str_le_dec : RelDecision str_le.
Proof. intros a b. unfold str_le. apply _. Defined.

(** [sorted(files)] *)
Definition sorted (l : list string) : list string := merge_sort str_le l.

(** [range(0, stop, step)] for a positive [step] (Python raises
    [ValueError] on a zero step; the callers pass 1000 and 10). *)
Definition range_step (stop step : nat) : list nat :=
  (fun k => k * step)%nat <$> seq 0 ((stop + step - 1) / step)%nat.

(** [l[i:i+n]] *)
Definition slice {A} (i n : nat) (l : list A) : list A := take n (drop i l).

(** A [dict] keeps insertion order, and assigning to a key that is
    present keeps its place. *)
Fixpoint dict_set {V} (k : string) (v : V) (d : list (string * V)) : list (string * V) :=
  match d with
  | [] => [(k, v)]
  | (k', v') :: d' =>
      if String.eqb k k' then (k, v) :: d' else (k', v') :: dict_set k v d'
  end.

Fixpoint dict_get {V} (k : string) (d : list (string * V)) : option V :=
  match d with
  | [] => None
  | (k', v') :: d' => if String.eqb k k' then Some v' else dict_get k d'
  end.

(** [d.pop(k)] on a key that is present, [del d[k]] *)
Fixpoint dict_pop {V} (k : string) (d : list (string * V)) : list (string * V) :=
  match d with
  | [] => []
  | (k', v') :: d' => if String.eqb k k' then d' else (k', v') :: dict_pop k d'
  end.

(** The directory [os.path.join(d, n)] names, for a name [n] without a
    slash other than [.] and [..]: the join with the empty name is [d/],
    the directory [d] itself, and the files joined to it are files of [d]. *)
Definition join (d n : string) : string :=
  if String.eqb n "" then d else d ++ "/" ++ n.

End Py.

(** ** Records stored by the crawler *)

(** A post record as [DataExtractor.extract_message_details] builds it.
    [posted_time] is what [datetime.fromisoformat(msg["posted_time"])] gives:
    an instant on the time line, or [None] where the call raises. *)
Record Msg := mkMsg {
  id : Z;
  channel_id : string;
  text : string;
  posted_time : option Z
}.

#[export] Instance Msg_eq_dec : EqDecision Msg.
Proof. solve_decision. Defined.

(** The values the crawler hands to a storage strategy: the list of a
    channel's post records, or the checkpoint dictionary. *)
Inductive data :=
  | Messages (l : list Msg)
  | Times (m : gmap string (option Z)).

(** A file path: the directory and the file's name in it. *)
Abbreviation path := (string * string)%type.

(** [app/config.py], the settings the modelled code reads. *)
Record Config := mkConfig {
  USE_KAFKA : bool;
  CUMULATIVE_JSON_ITERATIONS : Z;
  OUTPUT_DIR : string;
  LAST_TIME_FILE : path;
  TOPIC : string
}.

(** The values [Config._initialize] sets. *)
Definition default_config : Config :=
  {| USE_KAFKA := false;
     CUMULATIVE_JSON_ITERATIONS := 0;
     OUTPUT_DIR := "./output/messages";
     LAST_TIME_FILE := (".", "last_crawled_times.json");
     TOPIC := "Eitaa" |}.

(** What the interpreter decides: [hash(json.dumps(x))] printed as it
    appears inside an f-string, and [datetime.isoformat]. *)
Record PyEnv := mkPyEnv {
  hash_json : data -> string;
  isoformat : Z -> string
}.

(** ** Storage strategies and the broker client *)

Module Storage.

(** [KafkaManager]: [producer] tells whether a producer object is held,
    [pending_deliveries] is the dictionary of the class, [in_flight] the keys
    of the messages handed to the producer whose delivery report has not
    been served yet, in the order of the [produce] calls. *)
Record KafkaManager := mkKafkaManager {
  producer : bool;
  pending_deliveries : list (string * path);
  in_flight : list string
}.

(** The disk and the broker client. A file maps to [None] when its bytes
    are not JSON. *)
Record World := mkWorld {
  files : gmap path (option data);
  dirs : gset string;
  kafka : KafkaManager
}.

Definition set_files (f : gmap path (option data)) (w : World) : World :=
  mkWorld f (dirs w) (kafka w).
Definition set_kafka (k : KafkaManager) (w : World) : World :=
  mkWorld (files w) (dirs w) k.
Definition set_pending (p : list (string * path)) (w : World) : World :=
  set_kafka (mkKafkaManager (producer (kafka w)) p (in_flight (kafka w))) w.
Definition set_in_flight (q : list string) (w : World) : World :=
  set_kafka (mkKafkaManager (producer (kafka w)) (pending_deliveries (kafka w)) q) w.

Definition pending (w : World) : list (string * path) :=
  pending_deliveries (kafka w).

(** [os.path.exists(filepath)] for a file *)
Definition exists_file (p : path) (w : World) : bool :=
  bool_decide (is_Some (files w !! p)).

(** *** [LocalStorageStrategy] *)

Definition Local_save (d : data) (p : path) (w : World) : World :=
  mkWorld (<[p := Some d]> (files w)) ({[p.1]} ∪ dirs w) (kafka w).

Definition Local_load (p : path) (w : World) : option data :=
  match files w !! p with
  | Some (Some d) => Some d
  | _ => None
  end.

Definition Local_delete (p : path) (w : World) : World :=
  if exists_file p w then set_files (delete p (files w)) w else w.

(** *** [KafkaManager] *)

(** What the broker side decides during one [send]: whether a producer
    can be built, whether [produce] accepts the messages, and the delivery
    reports the [flush] serves, oldest message first ([None]: delivered,
    [Some e]: the error). Messages beyond the reports stay in flight. *)
Record SendEnv := mkSendEnv {
  init_ok : bool;
  produce_ok : bool;
  reports : list (option string)
}.

Definition init_producer (cfg : Config) (e : SendEnv) (w : World) : bool * World :=
  if negb (USE_KAFKA cfg) then (false, w)
  else if init_ok e
       then (true, set_kafka (mkKafkaManager true (pending w) []) w)
       else (false, set_kafka (mkKafkaManager false (pending w) []) w).

Definition delivery_report (err : option string) (msg_key : string) (w : World) : World :=
  match err with
  | Some _ =>
      match Py.dict_get msg_key (pending w) with
      | Some _ => set_pending (Py.dict_pop msg_key (pending w)) w
      | None => w
      end
  | None =>
      match Py.dict_get msg_key (pending w) with
      | Some filepath =>
          let w1 := if exists_file filepath w
                    then set_files (delete filepath (files w)) w else w in
          set_pending (Py.dict_pop msg_key (pending w1)) w1
      | None => w
      end
  end.

Definition track_file_for_deletion (msg_key : string) (filepath : path) (w : World) : World :=
  set_pending (Py.dict_set msg_key filepath (pending w)) w.

(** [producer.produce(topic, key=..., callback=self.delivery_report)] *)
Definition produce (msg_key : string) (w : World) : World :=
  set_in_flight (in_flight (kafka w) ++ [msg_key]) w.

(** [producer.flush(timeout=10.0)]: the reports that arrived are served
    to the callback in order. *)
Fixpoint serve (rs : list (option string)) (q : list string) (w : World) : list string * World :=
  match rs, q with
  | r :: rs', k :: q' => serve rs' q' (delivery_report r k w)
  | _, _ => (q, w)
  end.

Definition flush (rs : list (option string)) (w : World) : World :=
  let '(q, w') := serve rs (in_flight (kafka w)) w in
  set_in_flight q w'.

(** [str(data.get(k, ""))] on the checkpoint dictionary *)
Definition str_get (py : PyEnv) (k : string) (m : gmap string (option Z)) : string :=
  match m !! k with
  | None => ""
  | Some None => "None"
  | Some (Some t) => isoformat py t
  end.

Definition dict_msg_key (py : PyEnv) (m : gmap string (option Z)) : string :=
  let msg_key := (str_get py "id" m ++ "_" ++ str_get py "channel_id" m)%string in
  if Py.strip_underscore_empty msg_key
  then ("single_" ++ hash_json py (Times m))%string
  else msg_key.

Definition batch_key (py : PyEnv) (chunk : list Msg) : string :=
  ("batch_" ++ hash_json py (Messages (take 1 chunk)))%string.

(** One turn of the chunk loop of [send]. *)
Definition send_chunk (py : PyEnv) (file_path : path) (w : World) (chunk : list Msg) : World :=
  let k := batch_key py chunk in
  let w := track_file_for_deletion k file_path w in
  foldl (fun w _ => produce k w) w chunk.

(** The [except] branch of [send]: the producer is dropped. *)
Definition drop_producer (w : World) : World :=
  set_kafka (mkKafkaManager false (pending w) []) w.

(** [KafkaManager.send(topic, data, file_path)]; the hybrid strategy
    always passes the path of the file it wrote. *)
Definition send (cfg : Config) (py : PyEnv) (d : data) (file_path : path)
    (e : SendEnv) (w : World) : bool * World :=
  if negb (USE_KAFKA cfg) then (false, w)
  else
    let '(have, w) :=
      if producer (kafka w) then (true, w) else init_producer cfg e w in
    if negb have then (false, w)
    else
      match d with
      | Times m =>
          let w := track_file_for_deletion (dict_msg_key py m) file_path w in
          if produce_ok e
          then (true, flush (reports e) (produce (dict_msg_key py m) w))
          else (false, drop_producer w)
      | Messages l =>
          (* an empty list makes no [produce] call, so nothing can raise *)
          if produce_ok e || bool_decide (l = [])
          then
            let cs := (fun i => Py.slice i 1000 l) <$> Py.range_step (length l) 1000 in
            (true, flush (reports e) (foldl (send_chunk py file_path) w cs))
          else
            (false, drop_producer
                      (track_file_for_deletion
                         (batch_key py (Py.slice 0 1000 l)) file_path w))
      end.

(** *** [KafkaStorageStrategy.delete]: the first pending entry whose
    value is the path goes. *)
Fixpoint remove_first_value (p : path) (d : list (string * path)) : list (string * path) :=
  match d with
  | [] => []
  | (k, v) :: d' => if decide (v = p) then d' else (k, v) :: remove_first_value p d'
  end.

Definition Kafka_delete (p : path) (w : World) : World :=
  set_pending (remove_first_value p (pending w)) w.

(** *** [HybridStorageStrategy] *)

Definition Hybrid_save (cfg : Config) (py : PyEnv) (d : data) (filepath : path)
    (e : SendEnv) (w : World) : bool * World :=
  let w := Local_save d filepath w in
  if USE_KAFKA cfg then send cfg py d filepath e w else (true, w).

Definition Hybrid_load (filepath : path) (w : World) : option data :=
  Local_load filepath w.

Definition Hybrid_delete (filepath : path) (w : World) : World :=
  Kafka_delete filepath (Local_delete filepath w).

End Storage.

(** ** Data handlers *)

Module Handlers.
Import Storage.

(** What the clock and the broker decide during one
    [MessageHandler.save]: [now] is
    [datetime.now().strftime("%Y-%m-%dT%H-%M-%S")]. *)
Record SaveEnv := mkSaveEnv {
  now : string;
  kafka_snapshot : SendEnv;
  kafka_legacy : SendEnv
}.

Definition channel_dir (cfg : Config) (channel : string) : string :=
  Py.join (OUTPUT_DIR cfg) channel.

Definition snapshot_name (timestamp : string) : string :=
  "messages_" ++ timestamp ++ ".json".

Definition legacy_file (cfg : Config) (channel : string) : path :=
  (OUTPUT_DIR cfg, channel ++ ".json").

Definition exists_dir (d : string) (w : World) : bool := bool_decide (d ∈ dirs w).

Definition makedirs (d : string) (w : World) : World :=
  mkWorld (files w) ({[d]} ∪ dirs w) (kafka w).

(** [os.listdir(d)], in the order the file system gives. *)
Definition listdir (d : string) (w : World) : list string :=
  omap (fun p : path => if decide (p.1 = d) then Some p.2 else None)
       (map_to_list (files w)).*1.

(** [[f for f in os.listdir(d) if f.endswith('.json')]] *)
Definition json_files (d : string) (w : World) : list string :=
  filter (fun f => Py.endswith ".json" f = true) (listdir d w).

(** [MessageHandler.cleanup(channel_id)] *)
Definition cleanup (cfg : Config) (channel : string) (w : World) : World :=
  if CUMULATIVE_JSON_ITERATIONS cfg <=? 0 then w
  else if negb (exists_dir (channel_dir cfg channel) w) then w
  else
    let files := json_files (channel_dir cfg channel) w in
    if Z.of_nat (length files) >? CUMULATIVE_JSON_ITERATIONS cfg
    then
      let sorted_files := Py.sorted files in
      let files_to_delete :=
        take (length sorted_files - Z.to_nat (CUMULATIVE_JSON_ITERATIONS cfg))%nat
             sorted_files in
      foldl (fun w file_to_delete =>
               Hybrid_delete (channel_dir cfg channel, file_to_delete) w)
            w files_to_delete
    else w.

(** [MessageHandler.save(channel_id, messages)] *)
Definition save (cfg : Config) (py : PyEnv) (channel : string) (messages : list Msg)
    (e : SaveEnv) (w : World) : World :=
  let w := if exists_dir (channel_dir cfg channel) w then w
           else makedirs (channel_dir cfg channel) w in
  let timestamped_file := (channel_dir cfg channel, snapshot_name (now e)) in
  let w := (Hybrid_save cfg py (Messages messages) timestamped_file (kafka_snapshot e) w).2 in
  let w := if negb (CUMULATIVE_JSON_ITERATIONS cfg =? 0)
           then (Hybrid_save cfg py (Messages messages) (legacy_file cfg channel)
                   (kafka_legacy e) w).2
           else w in
  if CUMULATIVE_JSON_ITERATIONS cfg >? 0 then cleanup cfg channel w else w.

(** Truth value of a loaded JSON value. *)
Definition truthy (d : option data) : bool :=
  match d with
  | Some (Messages l) => negb (bool_decide (l = []))
  | Some (Times m) => negb (bool_decide (m = ∅))
  | None => false
  end.

(** [MessageHandler.load(channel_id)]; [None] is Python's [None]. The
    head of [sorted(files, reverse=True)] is the last name of the
    ascending order. *)
Definition load (cfg : Config) (channel : string) (w : World) : option data :=
  if exists_file (legacy_file cfg channel) w &&
     truthy (Hybrid_load (legacy_file cfg channel) w)
  then Hybrid_load (legacy_file cfg channel) w
  else
    if exists_dir (channel_dir cfg channel) w
    then
      match last (Py.sorted (json_files (channel_dir cfg channel) w)) with
      | Some latest_file => Hybrid_load (channel_dir cfg channel, latest_file) w
      | None => Some (Messages [])
      end
    else Some (Messages []).

End Handlers.

(** ** The fetcher *)

(** A raw page fragment, given by what
    [DataExtractor.extract_message_details] makes of it. *)
Inductive Fragment :=
  | ExtractsTo (msg : Msg)
  | ExtractsNone
  | ExtractRaises.

Module Network.

(** What one [session.get] of an attempt leads to. *)
Inductive Response :=
  | HTTPError (status_code : nat) (e : string)   (* [raise_for_status] raised *)
  | Page (structure_ok : bool) (messages : list Fragment)
  | ParseError (e : string)
  | ConnectionError (e : string)
  | Timeout (e : string)
  | OtherError (e : string).

(** [{"messages": ..., "soup": ...}] *)
Record ChannelData := mkChannelData {
  messages : list Fragment;
  soup : bool
}.

Definition no_data : ChannelData := mkChannelData [] false.

Record FetchResult := mkFetchResult {
  channel_data : ChannelData;
  error : option string;
  requests : nat;          (* [session.get] calls made *)
  sleeps : list nat        (* [time.sleep] calls, in order *)
}.

Definition finish (d : ChannelData) (err : option string) (n : nat) (sl : list nat) :=
  mkFetchResult d err n sl.

(** The body of [for attempt in range(retries)], [remaining] attempts
    being left including the current one. *)
Fixpoint attempts (channel : string) (retries : nat) (responses : nat -> Response)
    (remaining : nat) (sl : list nat) : FetchResult :=
  match remaining with
  | O => finish no_data (Some "Max retries reached") retries sl
  | S remaining' =>
      let attempt := (retries - remaining)%nat in
      let again := attempts channel retries responses remaining' in
      let last_attempt := negb (attempt <? retries - 1)%nat in
      match responses attempt with
      | HTTPError status_code e =>
          if (status_code =? 404)%nat
          then finish no_data (Some ("Channel not found (404): " ++ channel)) (S attempt) sl
          else if (status_code =? 403)%nat
          then finish no_data (Some ("Access forbidden (403) for channel: " ++ channel))
                 (S attempt) sl
          else if (status_code =? 429)%nat
          then again (sl ++ [Nat.min 60 ((attempt + 1) * 20)])%list
          else if (500 <=? status_code)%nat
          then finish no_data
                 (Some ("Server error (" ++ Py.str_of_nat status_code
                        ++ ") for channel: " ++ channel)) (S attempt) sl
          else if last_attempt
          then finish no_data (Some ("Error: " ++ e)) (S attempt) sl
          else again sl
      | Page structure_ok msgs =>
          if structure_ok
          then finish (mkChannelData msgs true) None (S attempt) sl
          else finish no_data (Some "Invalid or changed page structure") (S attempt) sl
      | ParseError e => finish no_data (Some ("Parse error: " ++ e)) (S attempt) sl
      | ConnectionError e =>
          if last_attempt
          then finish no_data (Some ("Connection error: " ++ e)) (S attempt) sl
          else again (sl ++ [2 ^ attempt * 5]%nat)%list
      | Timeout e =>
          if last_attempt
          then finish no_data (Some ("Timeout: " ++ e)) (S attempt) sl
          else again sl
      | OtherError e =>
          if last_attempt
          then finish no_data (Some ("Error: " ++ e)) (S attempt) sl
          else again sl
      end
  end.

(** [NetworkManager.fetch_channel_data(channel_id, retries)]; the proxy
    only changes the route of the requests. *)
Definition fetch_channel_data (channel : string) (retries : nat)
    (responses : nat -> Response) : FetchResult :=
  attempts channel retries responses retries [].

End Network.

(** ** The crawl orchestrator *)

Module Crawler.
Import Storage.

(** What happens outside the crawler while the channel at one position
    of the list is processed. [save_ok = false]: [message_handler.save]
    raises (the enclosing [except] logs it). *)
Record ChannelEnv := mkChannelEnv {
  responses : nat -> Network.Response;
  save_ok : bool;
  save_env : Handlers.SaveEnv;
  times_env : SendEnv
}.

(** What the cycle does to the outside, in order; [pos] is the position of
    the channel in the channel list. *)
Inductive Event :=
  | Sleep (seconds : nat)
  | Fetch (pos : nat) (channel : string)
  | Save (pos : nat) (channel : string) (stored : list Msg)
  | Checkpoint (pos : nat) (channel : string) (t : Z).

(** The attributes of [EitaaCrawler] the cycle changes, and the locals of
    [crawl_new_messages_and_bios]. *)
Record State := mkState {
  last_crawled_times : gmap string (option Z);
  world : World;
  rate_limit_encountered : bool;
  consecutive_failures : nat;
  failed_channels : list (string * string);
  total_new_messages : nat;
  crawled_channels : nat;
  trace : list Event
}.

(** [self.last_crawled_times.get(channel_id)] *)
Definition get_last_time (times : gmap string (option Z)) (channel : string) : option Z :=
  match times !! channel with
  | Some (Some t) => Some t
  | _ => None
  end.

(** [_load_last_crawled_times]; [None] where [data.items()] raises. *)
Definition _load_last_crawled_times (cfg : Config) (w : World)
    : option (gmap string (option Z)) :=
  match Hybrid_load (LAST_TIME_FILE cfg) w with
  | Some (Times m) => Some m
  | Some (Messages []) => Some ∅
  | Some (Messages (_ :: _)) => None
  | None => Some ∅
  end.

(** [_save_last_crawled_times] *)
Definition _save_last_crawled_times (cfg : Config) (py : PyEnv)
    (times : gmap string (option Z)) (e : SendEnv) (w : World) : World :=
  (Hybrid_save cfg py (Times times) (LAST_TIME_FILE cfg) e w).2.

(** The novelty test of line 190:
    [(not last_time or posted_time > last_time) and msg["id"] not in existing_ids] *)
Definition is_new (last_time : option Z) (existing_ids : gset Z) (msg : Msg) (pt : Z) : bool :=
  match last_time with
  | None => true
  | Some lt => bool_decide (lt < pt)
  end && bool_decide (id msg ∉ existing_ids).

(** The locals the loop over the raw messages changes. *)
Record Acc := mkAcc {
  new_messages : list Msg;
  latest_time : option Z;
  error_messages : nat
}.

(** One turn of [for raw_msg in raw_messages]. *)
Definition message_step (last_time : option Z) (existing_ids : gset Z)
    (acc : Acc) (raw_msg : Fragment) : Acc :=
  match raw_msg with
  | ExtractRaises | ExtractsNone =>
      mkAcc (new_messages acc) (latest_time acc) (S (error_messages acc))
  | ExtractsTo msg =>
      match posted_time msg with
      | None => acc
      | Some pt =>
          if is_new last_time existing_ids msg pt
          then mkAcc (new_messages acc ++ [msg])
                     (Some match latest_time acc with
                           | Some l => Z.max l pt
                           | None => pt
                           end)
                     (error_messages acc)
          else acc
      end
  end.

Definition process_messages (last_time : option Z) (existing_ids : gset Z)
    (raw_messages : list Fragment) : Acc :=
  foldl (message_step last_time existing_ids) (mkAcc [] last_time 0) raw_messages.

(** [existing_messages] and [existing_ids] of lines 110-116. A loaded
    [None] makes the comprehension raise, and the handler falls back to
    the empty list; a loaded dictionary has no dictionary members. *)
Definition existing (loaded : option data) : data * gset Z :=
  match loaded with
  | Some (Messages l) => (Messages l, list_to_set (id <$> l))
  | Some (Times m) => (Times m, ∅)
  | None => (Messages [], ∅)
  end.

Definition log (ev : Event) (st : State) : State :=
  mkState (last_crawled_times st) (world st) (rate_limit_encountered st)
    (consecutive_failures st) (failed_channels st) (total_new_messages st)
    (crawled_channels st) (trace st ++ [ev]).

(** Lines 207-216: merge, save, move the checkpoint. *)
Definition save_new (cfg : Config) (py : PyEnv) (pos : nat) (channel : string)
    (e : ChannelEnv) (existing_messages : data) (acc : Acc) (st : State) : State :=
  match new_messages acc, existing_messages with
  | [], _ => st
  | _ :: _, Times _ => st             (* [extend] raises, logged *)
  | _ :: _, Messages old =>
      if save_ok e
      then
        let merged := (old ++ new_messages acc)%list in
        let w := Handlers.save cfg py channel merged (save_env e) (world st) in
        let st := log (Save pos channel merged)
                    (mkState (last_crawled_times st) w (rate_limit_encountered st)
                       (consecutive_failures st) (failed_channels st)
                       (total_new_messages st) (crawled_channels st) (trace st)) in
        match latest_time acc with
        | Some t =>
            let times := <[channel := Some t]> (last_crawled_times st) in
            log (Checkpoint pos channel t)
              (mkState times
                 (_save_last_crawled_times cfg py times (times_env e) (world st))
                 (rate_limit_encountered st) (consecutive_failures st)
                 (failed_channels st) (total_new_messages st)
                 (crawled_channels st) (trace st))
        | None => st
        end
      else st                          (* the save raised, logged *)
  end.

(** The body of [for channel_id in batch]; the second component counts
    [batch_failures]. The bio extracted from the page is collected for
    [bio_handler.save], which is not part of this model. *)
Definition process_channel (cfg : Config) (py : PyEnv) (pos : nat) (channel : string)
    (e : ChannelEnv) (sb : State * nat) : State * nat :=
  let '(st, batch_failures) := sb in
  let last_time := get_last_time (last_crawled_times st) channel in
  let '(existing_messages, existing_ids) :=
    existing (Handlers.load cfg channel (world st)) in
  let r := Network.fetch_channel_data channel 2 (responses e) in
  let st := log (Fetch pos channel) st in
  let limited :=
    match Network.error r with
    | Some err => Py.contains "429" err
    | None => false
    end in
  let flag := limited || rate_limit_encountered st in
  let raw_messages := Network.messages (Network.channel_data r) in
  if bool_decide (raw_messages = []) || negb (Network.soup (Network.channel_data r))
  then
    (mkState (last_crawled_times st) (world st) flag
       (S (consecutive_failures st))
       (Py.dict_set channel (default "No data" (Network.error r)) (failed_channels st))
       (total_new_messages st) (crawled_channels st) (trace st),
     S batch_failures)
  else
    let acc := process_messages last_time existing_ids raw_messages in
    let st := mkState (last_crawled_times st) (world st) flag 0 (failed_channels st)
                (total_new_messages st + length (new_messages acc))
                (S (crawled_channels st)) (trace st) in
    let st := save_new cfg py pos channel e existing_messages acc st in
    (log (Sleep 1) st, batch_failures).

(** Lines 93-98: the batch after a rate-limit signal. *)
Definition prepare_batch {A} (rate_limit : bool) (batch : list A) : list A * list nat :=
  let current_batch_size := length batch in
  if rate_limit && (3 <? current_batch_size)%nat
  then (take (Nat.max 3 (current_batch_size / 2)) batch, [30%nat])
  else (batch, []).

Definition clear_flag (delay : list nat) (st : State) : State :=
  mkState (last_crawled_times st) (world st) false
    (consecutive_failures st) (failed_channels st) (total_new_messages st)
    (crawled_channels st) (trace st ++ (Sleep <$> delay)).

(** The channels of a batch with their positions in the channel list. *)
Definition positioned (i : nat) (batch : list string) : list (nat * string) :=
  imap (fun j c => ((i + j)%nat, c)) batch.

Definition process_channels (cfg : Config) (py : PyEnv) (env : nat -> ChannelEnv)
    (i : nat) (batch : list string) (st : State) : State * nat :=
  foldl (fun sb pc => process_channel cfg py pc.1 pc.2 (env pc.1) sb)
        (st, 0%nat) (positioned i batch).

(** Lines 239-242: [batch_failures > len(batch) / 2]. *)
Definition adaptive_delay (batch : list string) (sb : State * nat) : State :=
  let '(st, batch_failures) := sb in
  if (length batch <? 2 * batch_failures)%nat
  then log (Sleep (Nat.min 60 (batch_failures * 5))) st
  else st.

(** The body of [for i in range(0, len(self.channels), batch_size)].
    [bio_handler.save] of lines 227-234 is left out: it writes the bio
    store only, but with the broker on its flush also serves the delivery
    reports of messages the saves of the batch left in flight, and a
    confirmed one removes the file of that save. The model is of the
    message store and the checkpoints up to that flush. *)
Definition process_batch (cfg : Config) (py : PyEnv) (env : nat -> ChannelEnv)
    (channels : list string) (batch_size : nat) (st : State) (i : nat) : State :=
  let batch := Py.slice i batch_size channels in
  let bd := prepare_batch (rate_limit_encountered st) batch in
  adaptive_delay bd.1 (process_channels cfg py env i bd.1 (clear_flag bd.2 st)).

(** The state a cycle starts from: the attributes and fresh locals. *)
Definition start (times : gmap string (option Z)) (w : World) : State :=
  mkState times w false 0 [] 0 0 [].

(** [crawl_new_messages_and_bios(batch_size)], for a positive
    [batch_size]. *)
Definition crawl_new_messages_and_bios (cfg : Config) (py : PyEnv)
    (env : nat -> ChannelEnv) (channels : list string) (batch_size : nat)
    (times : gmap string (option Z)) (w : World) : State :=
  match channels with
  | [] => start times w
  | _ => foldl (process_batch cfg py env channels batch_size) (start times w)
           (Py.range_step (length channels) batch_size)
  end.

End Crawler.

(** ** The proxy pool *)

Module Proxy.

(** Outcome of one [requests.get]: it raises, or it answers with a
    status and, for the IP service, the ["origin"] of the JSON body
    ([None] where reading it raises). *)
Inductive Reply :=
  | Raised
  | Responded (status_code : nat) (origin : option string).

(** The requests one attempt of [test_proxy] can make: the reachability
    request and the IP query through the proxy, and the direct IP query
    of [_get_local_ip] ([None] where that one fails). *)
Record Probe := mkProbe {
  google : Reply;
  httpbin : Reply;
  local_ip : option string
}.

(** The [try] body of an attempt: [Some b] for [return b], [None] for
    an exception. *)
Definition attempt_result (p : Probe) : option bool :=
  match google p with
  | Raised => None
  | Responded c _ =>
      if negb (c =? 200)%nat then Some false
      else
        match httpbin p with
        | Raised => None
        | Responded c2 None => if negb (c2 =? 200)%nat then Some false else None
        | Responded c2 (Some proxy_ip) =>
            if negb (c2 =? 200)%nat then Some false
            else
              match local_ip p with
              | None => Some false
              | Some l => if String.eqb proxy_ip l then Some false else Some true
              end
        end
  end.

(** [ProxyManager.test_proxy(proxy)], [net proxy attempt] being what the
    network does in that attempt. *)
Definition test_proxy (net : string -> nat -> Probe) (proxy : string) : bool :=
  match attempt_result (net proxy 0%nat) with
  | Some b => b
  | None =>
      match attempt_result (net proxy 1%nat) with
      | Some b => b
      | None => false
      end
  end.

(** [fetch_proxy_list]: each source yields its well-formed addresses or
    fails; the union is a set. *)
Definition fetch_proxy_list (sources : list (option (list string))) : list string :=
  remove_dups (concat (default [] <$> sources)).

Record ProxyManager := mkProxyManager {
  proxy_pool : list string;
  last_refresh : Z;
  refresh_interval : Z
}.

(** The guard of [refresh_proxy_pool]; times are in seconds. *)
Definition fresh (pm : ProxyManager) (current_time : Z) : bool :=
  (current_time - last_refresh pm <? refresh_interval pm)
  && negb (bool_decide (proxy_pool pm = [])).

Definition refresh_proxy_pool (net : string -> nat -> Probe)
    (sources : list (option (list string))) (current_time : Z)
    (pm : ProxyManager) : ProxyManager :=
  if fresh pm current_time then pm
  else
    let new_proxies := fetch_proxy_list sources in
    mkProxyManager (List.filter (test_proxy net) new_proxies)
      current_time (refresh_interval pm).

End Proxy.

(** ** The command-line application *)

Module App.

(** The channel-list file as [open] and [json.load] see it. *)
Inductive ChannelsFile :=
  | Missing                          (* [FileNotFoundError] *)
  | NotJSON                          (* [json.JSONDecodeError] *)
  | JSONArray (channels : list string)
  | JSONOther.                       (* a JSON value that is no array *)

Record Args := mkArgs {
  interval : option Z;
  require_proxies : bool;
  kafka : bool
}.

(** How a call ends: it returns, it calls [exit(code)], or it enters the
    endless crawl loop with the given channels. *)
Inductive Outcome :=
  | Returned
  | SysExit (code : nat)
  | MainLoop (channels : list string).

(** [load_channels], with the lines it logs at error level. *)
Definition load_channels (f : ChannelsFile) : list string * list string :=
  match f with
  | JSONArray channels => (channels, [])
  | JSONOther =>
      ([], ["config/users.json must be a JSON array";
            "Channel load failed: Channels file must be a JSON array"])
  | Missing => ([], ["config/users.json not found"])
  | NotJSON => ([], ["config/users.json parse failed"])
  end.

(** The start of [EitaaCrawler.run], up to the main loop; [checks_ok] is
    the result of [perform_initial_checks]. *)
Definition crawler_run (interval_seconds : Z) (channels : list string)
    (require_proxies checks_ok : bool) : Outcome * list string :=
  if interval_seconds <? 60 then (SysExit 1, ["Invalid interval"])
  else
    match channels with
    | [] => (SysExit 1, ["No channels provided"])
    | _ =>
        if negb checks_ok && require_proxies
        then (SysExit 1, ["Initial checks failed with proxies required - shutting down"])
        else (MainLoop channels, [])
    end.

(** [EitaaCrawlerApplication.run]: the outcome and the error log. The
    crawler takes [args.interval or config.CRAWL_INTERVAL_SECONDS]. *)
Definition run (args : Args) (f : ChannelsFile) (checks_ok : bool)
    : Outcome * list string :=
  let '(channels, logged) := load_channels f in
  match channels with
  | [] => (Returned, logged ++ ["No channels to crawl"])%list
  | _ =>
      let interval_seconds :=
        match interval args with
        | Some n => if n =? 0 then 1800 else n
        | None => 1800
        end in
      let '(o, logged') :=
        crawler_run interval_seconds channels (require_proxies args) checks_ok in
      (o, (logged ++ logged')%list)
  end.

(** The exit status of the process running [main]: 0 when [main]
    returns, the code of [exit(code)], none while the loop runs. *)
Definition exit_status (o : Outcome) : option nat :=
  match o with
  | Returned => Some 0%nat
  | SysExit code => Some code
  | MainLoop _ => None
  end.

Definition main (args : Args) (f : ChannelsFile) (checks_ok : bool) : option nat :=
  exit_status (run args f checks_ok).1.

End App.

(** ** Startup checks and the main loop *)

Module Startup.
Import App.

(** The verdict of [NetworkManager.check_users_file] (the first component
    of its result; the message is only logged). *)
Definition check_users_file (f : ChannelsFile) : bool :=
  match f with
  | JSONArray [] => false            (* "Empty file" *)
  | JSONArray (_ :: _) => true       (* "OK" *)
  | JSONOther => false               (* "Invalid: Not a list" *)
  | Missing => false                 (* "Not found" *)
  | NotJSON => false                 (* "Invalid JSON" *)
  end.

(** [NetworkManager.perform_initial_checks(require_proxies)]: [internet_ok]
    and [proxy_ok] are the verdicts of [check_internet] and of
    [ProxyManager.check_proxy]; the proxy check is made and counted only
    when proxies are required. *)
Definition perform_initial_checks (internet_ok : bool) (f : ChannelsFile)
    (proxy_ok require_proxies : bool) : bool :=
  internet_ok && check_users_file f && (if require_proxies then proxy_ok else true).

(** What [EitaaCrawlerApplication.run] leaves in
    [config.CRAWL_INTERVAL_SECONDS] (lines 71-80). *)
Definition configured_interval (args : Args) : Z :=
  match interval args with
  | Some n => if n =? 0 then 1800 else if n <? 60 then 60 else n
  | None => 1800
  end.

(** The application from the command line to the main loop; the channel
    file is the same when [load_channels] and [check_users_file] read it.
    With channels to crawl the crawler is constructed before it runs, and
    its constructor loads the checkpoints from the disk [w]: [None] where
    that raises, which nothing catches. *)
Definition startup (cfg : Config) (w : Storage.World) (args : Args) (f : ChannelsFile)
    (internet_ok proxy_ok : bool) : option (Outcome * list string) :=
  let result :=
    run args f (perform_initial_checks internet_ok f proxy_ok (require_proxies args)) in
  match (load_channels f).1 with
  | [] => Some result
  | _ =>
      match Crawler._load_last_crawled_times cfg w with
      | Some _ => Some result
      | None => None
      end
  end.

End Startup.

Module Loop.
Import Crawler.

(** The crawler between two cycles: its checkpoints, the disk and broker
    client, and what it did so far. *)
Record Run := mkRun {
  times : gmap string (option Z);
  world : Storage.World;
  history : list Event
}.

(** One turn of [while True] in [EitaaCrawler.run] that ends without an
    exception: the cycle with the default batch size, then the sleep. *)
Definition cycle (cfg : Config) (py : PyEnv) (channels : list string)
    (interval_seconds : nat) (r : Run) (env : nat -> ChannelEnv) : Run :=
  let st := crawl_new_messages_and_bios cfg py env channels 10 (times r) (world r) in
  mkRun (last_crawled_times st) (Crawler.world st)
    (history r ++ trace st ++ [Sleep interval_seconds]).

(** The first cycles of the main loop, one environment per cycle. *)
Definition cycles (cfg : Config) (py : PyEnv) (channels : list string)
    (interval_seconds : nat) (envs : list (nat -> ChannelEnv)) (r : Run) : Run :=
  foldl (cycle cfg py channels interval_seconds) r envs.

End Loop.

Module ProxyUse.
Import Proxy.

(** [random.choice(pool)], [pick] being the random draw. *)
Definition choice (pick : nat) (pool : list string) : option string :=
  pool !! (pick mod length pool)%nat.

(** [ProxyManager.get_random_proxy()]: the proxy, or [None], and the
    manager after the refresh. *)
Definition get_random_proxy (net : string -> nat -> Probe)
    (sources : list (option (list string))) (current_time : Z) (pick : nat)
    (pm : ProxyManager) : option string * ProxyManager :=
  let pm := refresh_proxy_pool net sources current_time pm in
  match proxy_pool pm with
  | [] => (None, pm)
  | _ => (choice pick (proxy_pool pm), pm)
  end.

End ProxyUse.

(** * The vocabulary of the properties *)

(** ** The crawl loop *)

Section CrawlTerms.
Import Crawler.

(** What one raw message contributes to the new messages. *)
Definition kept (last_time : option Z) (existing_ids : gset Z) (raw_msg : Fragment)
    : option Msg :=
  match raw_msg with
  | ExtractsTo msg =>
      match posted_time msg with
      | Some pt => if is_new last_time existing_ids msg pt then Some msg else None
      | None => None
      end
  | _ => None
  end.

(** The checkpoint of a channel a restart would load from the disk. *)
Definition stored_checkpoint (cfg : Config) (w : Storage.World) (channel : string)
    : option Z :=
  match _load_last_crawled_times cfg w with
  | Some m => get_last_time m channel
  | None => None
  end.

(** Every checkpoint of [m] is still there in [m'], and not earlier. *)
Definition advances (m m' : gmap string (option Z)) : Prop :=
  forall c t, get_last_time m c = Some t ->
              exists t', get_last_time m' c = Some t' /\ t <= t'.

(** The fetch of a channel ends with an error that mentions 429
    (lines 127-130). *)
Definition rate_limited (e : ChannelEnv) (channel : string) : bool :=
  match Network.error (Network.fetch_channel_data channel 2 (responses e)) with
  | Some err => Py.contains "429" err
  | None => false
  end.

(** A batch that starts at position [i] observes a rate-limit signal. *)
Definition observed_rate_limit (env : nat -> ChannelEnv) (i : nat)
    (batch : list string) : bool :=
  existsb (fun pc : nat * string => rate_limited (env pc.1) pc.2) (positioned i batch).

(** The channels of the batch at [i] that are processed from state [st]. *)
Definition kept_batch (channels : list string) (batch_size : nat) (st : State)
    (i : nat) : list string :=
  (prepare_batch (rate_limit_encountered st) (Py.slice i batch_size channels)).1.

(** The position of the channel an event belongs to. *)
Definition event_pos (ev : Event) : option nat :=
  match ev with
  | Sleep _ => None
  | Fetch pos _ | Save pos _ _ | Checkpoint pos _ _ => Some pos
  end.

(** All positioned events of [tr] lie in [lo, hi). *)
Definition within (lo hi : nat) (tr : list Event) : Prop :=
  forall ev q, ev ∈ tr -> event_pos ev = Some q -> (lo <= q < hi)%nat.

(** [tr] grows into [tr'] by events of positions in [lo, hi). *)
Definition extends (lo hi : nat) (tr tr' : list Event) : Prop :=
  exists more, tr' = (tr ++ more)%list /\ within lo hi more.

End CrawlTerms.

(** ** The fetcher and the proxy pool *)

Section NetworkTerms.
Import Network Proxy.

(** The wait after a 429 in attempt [a]. *)
Definition rate_limit_wait (a : nat) : nat := Nat.min 60 ((a + 1) * 20).

(** What the fetcher sleeps after the response of attempt [a]: the wait
    of line 50 after a 429, the back-off of line 93 after a connection
    error in an attempt that is not the last, nothing otherwise. *)
Definition wait_after (retries : nat) (responses : nat -> Response) (a : nat)
    : list nat :=
  match responses a with
  | HTTPError status_code _ =>
      if (status_code =? 429)%nat then [Nat.min 60 ((a + 1) * 20)] else []
  | ConnectionError _ => if (a <? retries - 1)%nat then [(2 ^ a * 5)%nat] else []
  | _ => []
  end.

(** The property C6 words: rate-limited attempts are not counted, so a
    page that arrives after them is fetched whatever their number. *)
Definition rate_limits_uncounted (channel : string) (retries : nat)
    (responses : nat -> Response) : Prop :=
  forall k msgs,
    (0 < retries)%nat ->
    (forall a, (a < k)%nat -> exists e, responses a = HTTPError 429 e) ->
    responses k = Page true msgs ->
    channel_data (fetch_channel_data channel retries responses)
    = mkChannelData msgs true.

(** The two-stage test: in one of the two attempts the reachability
    request answers 200, the IP query through the proxy answers 200 with
    an address, and the machine's own address is known and differs. *)
Definition passes_two_stage (net : string -> nat -> Probe) (proxy : string) : Prop :=
  exists attempt proxy_ip own_ip o,
    (attempt < 2)%nat /\
    google (net proxy attempt) = Responded 200 o /\
    httpbin (net proxy attempt) = Responded 200 (Some proxy_ip) /\
    local_ip (net proxy attempt) = Some own_ip /\
    proxy_ip <> own_ip.

End NetworkTerms.

(** ** Snapshot files *)

Section RetentionTerms.
Import Storage Handlers.

Definition str_lt (a b : string) : Prop := String.ltb a b = true.




(** The world on which [save] runs [cleanup]. *)
Definition written (cfg : Config) (py : PyEnv) (channel : string)
    (messages : list Msg) (e : SaveEnv) (w : World) : World :=
  let w := if exists_dir (channel_dir cfg channel) w then w
           else makedirs (channel_dir cfg channel) w in
  let w := (Hybrid_save cfg py (Messages messages)
              (channel_dir cfg channel, snapshot_name (now e)) (kafka_snapshot e) w).2 in
  if negb (CUMULATIVE_JSON_ITERATIONS cfg =? 0)
  then (Hybrid_save cfg py (Messages messages) (legacy_file cfg channel)
          (kafka_legacy e) w).2
  else w.



(** A channel name that names a directory of its own under the output
    directory: not empty, not [.] or [..], without a slash. *)
Definition own_directory (channel : string) : Prop :=
  channel <> "" /\ channel <> "." /\ channel <> ".." /\
  Py.contains "/" channel = false.



End RetentionTerms.

(** ** Concrete surroundings for the scenarios *)

Section Samples.
Import Storage Crawler.

Definition sample_py : PyEnv := mkPyEnv (fun _ => "0") (fun _ => "t").

(** A broker that serves no delivery report, and one that confirms. *)
Definition quiet_send : SendEnv := mkSendEnv true true [].

Definition sample_save_env (timestamp : string) : Handlers.SaveEnv :=
  Handlers.mkSaveEnv timestamp quiet_send quiet_send.

(** The default settings with retention count [n], the broker on or off. *)
Definition kafka_config (n : Z) : Config :=
  mkConfig true n (OUTPUT_DIR default_config) (LAST_TIME_FILE default_config)
    (TOPIC default_config).
Definition local_config (n : Z) : Config :=
  mkConfig false n (OUTPUT_DIR default_config) (LAST_TIME_FILE default_config)
    (TOPIC default_config).

(** An empty disk and a broker client that holds a producer. *)
Definition fresh_world : World := mkWorld ∅ ∅ (mkKafkaManager true [] []).

Definition post (i t : Z) : Msg := mkMsg i "foo" "" (Some t).

(** Scenario B: the stored snapshot holds posts 1 and 2. *)
Definition stored_world : World :=
  mkWorld {[ ("./output/messages/foo", "messages_2024-01-01T00-00-00.json")
             := Some (Messages [post 1 50; post 2 100]) ]}
    {["./output/messages/foo"]} (mkKafkaManager true [] []).

(** Scenario B: the page shows posts 1, 2 and 3. *)
Definition scenario_env (pos : nat) : ChannelEnv :=
  mkChannelEnv
    (fun _ => Network.Page true
                [ExtractsTo (post 1 50); ExtractsTo (post 2 100);
                 ExtractsTo (post 3 150)])
    true (sample_save_env "2024-01-01T00-30-00") quiet_send.

Definition ten_channels : list string :=
  ["c0"; "c1"; "c2"; "c3"; "c4"; "c5"; "c6"; "c7"; "c8"; "c9"].

Definition twenty_channels : list string :=
  (ten_channels ++ ["d0"; "d1"; "d2"; "d3"; "d4"; "d5"; "d6"; "d7"; "d8"; "d9"])%list.

(** The first channel fails with an error that mentions 429, every other
    channel is not found. *)
Definition limited_env (pos : nat) : ChannelEnv :=
  mkChannelEnv
    (fun _ => if (pos =? 0)%nat
              then Network.OtherError "too many 429 error responses"
              else Network.HTTPError 404 "")
    true (sample_save_env "2024-01-01T00-00-00") quiet_send.

(** Two rate-limited attempts, then the page would be served. *)
Definition limited_twice (a : nat) : Network.Response :=
  if (a <? 2)%nat then Network.HTTPError 429 "429 Client Error"
  else Network.Page true [ExtractsNone].

(** A timeout, then a rate-limited attempt, then the page. *)
Definition timeout_then_limited (a : nat) : Network.Response :=
  if (a =? 0)%nat then Network.Timeout "timed out"
  else if (a =? 1)%nat then Network.HTTPError 429 "429 Client Error"
  else Network.Page true [ExtractsNone].

(** One working proxy, one that answers with the machine's own address. *)
Definition sample_net (proxy : string) (attempt : nat) : Proxy.Probe :=
  if String.eqb proxy "http://1.2.3.4:80"
  then Proxy.mkProbe (Proxy.Responded 200 None)
         (Proxy.Responded 200 (Some "1.2.3.4")) (Some "9.9.9.9")
  else Proxy.mkProbe (Proxy.Responded 200 None)
         (Proxy.Responded 200 (Some "9.9.9.9")) (Some "9.9.9.9").

Definition sample_sources : list (option (list string)) :=
  [Some ["http://1.2.3.4:80"; "http://5.6.7.8:80"]; None].

(** A broker that confirms every delivery. *)
Definition confirming : SendEnv := mkSendEnv true true [None; None; None; None].

(** Scenario B with the broker on: posts 1 and 2 and the checkpoint 100
    are on disk, and every delivery is confirmed. *)
Definition checkpointed_world : World :=
  mkWorld {[ ("./output/messages/foo", "messages_2024-01-01T00-00-00.json")
               := Some (Messages [post 1 50; post 2 100]);
             (".", "last_crawled_times.json") := Some (Times {["foo" := Some 100]}) ]}
    {["./output/messages/foo"; "."]} (mkKafkaManager true [] []).

Definition confirming_env (pos : nat) : ChannelEnv :=
  mkChannelEnv
    (fun _ => Network.Page true
                [ExtractsTo (post 1 50); ExtractsTo (post 2 100);
                 ExtractsTo (post 3 150)])
    true (Handlers.mkSaveEnv "2024-01-01T00-30-00" confirming confirming) confirming.



End Samples.

(** ** Further terms *)

Section FurtherTerms.
Import Storage Handlers Crawler.

(** A response after which the attempt loop of the fetcher goes on: a
    429, a connection error, a timeout, any other exception, and an HTTP
    error status that is none of 404, 403 and 5xx. *)
Definition retryable (r : Network.Response) : bool :=
  match r with
  | Network.HTTPError c _ =>
      negb (c =? 404)%nat && negb (c =? 403)%nat &&
      ((c =? 429)%nat || (c <? 500)%nat)
  | Network.ConnectionError _ | Network.Timeout _ | Network.OtherError _ => true
  | Network.Page _ _ | Network.ParseError _ => false
  end.

(** The positions fetched, in order. *)
Definition fetches (tr : list Event) : list nat :=
  omap (fun ev => match ev with Fetch pos _ => Some pos | _ => None end) tr.

(** The fetch of the channel brings nothing to process. *)
Definition fetch_fails (e : ChannelEnv) (channel : string) : bool :=
  let r := Network.fetch_channel_data channel 2 (responses e) in
  bool_decide (Network.messages (Network.channel_data r) = [])
  || negb (Network.soup (Network.channel_data r)).

(** The ids of the records the fragments extract to. *)
Definition extracted_ids (raws : list Fragment) : list Z :=
  omap (fun r => match r with ExtractsTo msg => Some (id msg) | _ => None end) raws.

(** The event is a sleep or concerns a channel at its position in the
    list. *)
Definition listed (channels : list string) (ev : Event) : Prop :=
  match ev with
  | Sleep _ => True
  | Fetch p ch | Save p ch _ | Checkpoint p ch _ => channels !! p = Some ch
  end.

(** The checkpoints in memory are what a restart would load from disk. *)
Definition synced (cfg : Config) (st : State) : Prop :=
  _load_last_crawled_times cfg (Crawler.world st) = Some (last_crawled_times st).

(** The checkpoint file is apart from the message store. *)
Definition checkpoint_apart (cfg : Config) : Prop :=
  (LAST_TIME_FILE cfg).1 <> OUTPUT_DIR cfg /\
  forall c, (LAST_TIME_FILE cfg).1 <> channel_dir cfg c.

(** A channel name without a slash: its directory lies where
    [channel_dir] spells it, under the output directory or at it. *)
Definition plain_name (channel : string) : Prop := Py.contains "/" channel = false.

(** [t] is the posted time of one of the messages, and none of them was
    posted later. *)
Definition latest_posted (l : list Msg) (t : Z) : Prop :=
  (exists m, m ∈ l /\ posted_time m = Some t) /\
  forall m pt, m ∈ l -> posted_time m = Some pt -> pt <= t.

End FurtherTerms.

(** * Properties *)

(** ** The novelty rule *)

Section Novelty.
Import Crawler.

Lemma foldl_message_step_new last_time existing_ids raws acc :
  new_messages (foldl (message_step last_time existing_ids) acc raws)
  = (new_messages acc ++ omap (kept last_time existing_ids) raws)%list.
Proof.
  revert acc. induction raws as [|r raws IH]; intros acc; simpl.
  - by rewrite app_nil_r.
  - rewrite IH. destruct r as [msg| |]; simpl; try done.
    destruct (posted_time msg) as [pt|]; simpl; try done.
    destruct (is_new last_time existing_ids msg pt); simpl; try done.
    by rewrite <- app_assoc.
Qed.

Lemma process_messages_new last_time existing_ids raws :
  new_messages (process_messages last_time existing_ids raws)
  = omap (kept last_time existing_ids) raws.
Proof. unfold process_messages. by rewrite foldl_message_step_new. Qed.

Lemma is_new_spec last_time existing_ids msg pt :
  is_new last_time existing_ids msg pt = true <->
  ((id msg ∉ existing_ids) /\
   (last_time = None \/ exists t, last_time = Some t /\ t < pt)).
Proof.
  unfold is_new. rewrite andb_true_iff, bool_decide_eq_true.
  destruct last_time as [t|].
  - rewrite bool_decide_eq_true. split.
    + intros [? ?]. split; [done|]. right. by exists t.
    + intros [? [?|(t' & [= <-] & ?)]]; done.
  - split; [intros [_ ?]|intros [? _]]; split; auto.
Qed.

Lemma elem_of_kept last_time (old : list Msg) (raws : list Fragment) msg :
  msg ∈ omap (kept last_time (list_to_set (id <$> old))) raws <->
  ExtractsTo msg ∈ raws /\
  (id msg ∉ (id <$> old)) /\
  exists pt, posted_time msg = Some pt /\
             (last_time = None \/ exists t, last_time = Some t /\ t < pt).
Proof.
  rewrite list_elem_of_omap. split.
  - intros (r & Hr & Hk). destruct r as [m'| |]; simpl in Hk; try done.
    destruct (posted_time m') as [pt|] eqn:E; try done.
    destruct (is_new last_time _ m' pt) eqn:N; try done.
    injection Hk as ->. apply is_new_spec in N as [Hid Ht].
    rewrite elem_of_list_to_set in Hid. split; [done|]. split; [done|].
    by exists pt.
  - intros (Hr & Hid & pt & Hpt & Ht). exists (ExtractsTo msg). split; [done|].
    simpl. rewrite Hpt.
    assert (N : is_new last_time (list_to_set (id <$> old)) msg pt = true).
    { apply is_new_spec. split; [|done]. by rewrite elem_of_list_to_set. }
    by rewrite N.
Qed.

(** C1. When the channel at a position is processed and its fetch brings
    a page, the new messages of the channel are exactly the fetched posts
    whose id is not among the ids of the messages [MessageHandler.load]
    returns for the channel, and for which the channel has no checkpoint
    or the post was posted strictly after it (a post whose time does not
    parse is never new). They are what the channel adds to the count of
    new messages, and, when there are any, what the save appends to the
    stored messages; when there are none, nothing is saved and no
    checkpoint moves. *)
Theorem new_message_iff (cfg : Config) (py : PyEnv) (pos : nat) (channel : string)
    (e : ChannelEnv) (st : State) (batch_failures : nat) (old : list Msg) :
  let r := Network.fetch_channel_data channel 2 (responses e) in
  let raw_messages := Network.messages (Network.channel_data r) in
  let last_time := get_last_time (last_crawled_times st) channel in
  let st' := (process_channel cfg py pos channel e (st, batch_failures)).1 in
  raw_messages <> [] ->
  Network.soup (Network.channel_data r) = true ->
  Handlers.load cfg channel (world st) = Some (Messages old) ->
  exists new,
    (forall msg,
       msg ∈ new <->
       ExtractsTo msg ∈ raw_messages /\
       (id msg ∉ (id <$> old)) /\
       exists pt, posted_time msg = Some pt /\
                  (last_time = None \/ exists t, last_time = Some t /\ t < pt)) /\
    total_new_messages st' = (total_new_messages st + length new)%nat /\
    (new <> [] -> save_ok e = true ->
     exists rest,
       trace st'
       = (trace st ++ Fetch pos channel :: Save pos channel (old ++ new) :: rest)%list) /\
    (new = [] ->
     trace st' = (trace st ++ [Fetch pos channel; Sleep 1])%list /\
     world st' = world st /\
     last_crawled_times st' = last_crawled_times st).
Proof.
  intros r raw_messages last_time st' Hraw Hsoup Hload.
  exists (omap (kept last_time (list_to_set (id <$> old))) raw_messages).
  split; [intros msg; apply elem_of_kept|].
  unfold st', process_channel. rewrite Hload. cbn [existing].
  fold r. fold raw_messages. fold last_time.
  rewrite bool_decide_eq_false_2 by done. rewrite Hsoup. cbn [negb orb].
  rewrite process_messages_new.
  set (new := omap (kept last_time (list_to_set (id <$> old))) raw_messages).
  unfold save_new. rewrite process_messages_new. fold new.
  destruct new as [|m new'] eqn:Enew.
  - cbn. repeat split; try done. by rewrite <- app_assoc.
  - destruct (save_ok e) eqn:Hok.
    + destruct (latest_time _) as [t|]; cbn;
        (split; [done|]); (split; [|done]); intros _ _;
        eexists; rewrite <- !app_assoc; cbn; reflexivity.
    + cbn. split; [done|]. split; [|done]. by intros _ [=].
Qed.

(** Scenario B with the checkpoint at 40, before the posted times of all
    three posts the page shows: posts 1 and 2 are left out because their
    ids are stored, and post 3 is appended. *)
Lemma new_message_iff_witness :
  exists rest,
    trace (process_channel (local_config 0) sample_py 0 "foo" (scenario_env 0)
             (start {["foo" := Some 40]} stored_world, 0%nat)).1
    = (Fetch 0 "foo" :: Save 0 "foo" [post 1 50; post 2 100; post 3 150] :: rest)%list.
Proof.
  destruct (new_message_iff (local_config 0) sample_py 0 "foo" (scenario_env 0)
              (start {["foo" := Some 40]} stored_world) 0 [post 1 50; post 2 100])
    as (new & Hiff & Hcount & Hsave & _).
  - discriminate.
  - reflexivity.
  - vm_compute. reflexivity.
  - assert (H3 : post 3 150 ∈ new).
    { apply Hiff. split; [|split].
      - do 2 apply list_elem_of_further. apply list_elem_of_here.
      - apply (bool_decide_unpack _). vm_compute. exact I.
      - exists 150. split; [reflexivity|]. right. exists 40.
        split; [reflexivity|lia]. }
    assert (Hnew : new = [post 3 150]).
    { vm_compute in Hcount.
      destruct new as [|x [|y l]]; try discriminate Hcount.
      by apply list_elem_of_singleton in H3 as ->. }
    destruct Hsave as [rest Hrest]; [by rewrite Hnew|reflexivity|].
    exists rest. by rewrite Hrest, Hnew.
Defined.

End Novelty.

(** ** Batches after a rate-limit signal *)

Section Batches.
Import Crawler.

Lemma flag_save_new cfg py pos channel e old acc st :
  rate_limit_encountered (save_new cfg py pos channel e old acc st)
  = rate_limit_encountered st.
Proof.
  unfold save_new. destruct (new_messages acc); [done|].
  destruct old; [|done]. destruct (save_ok e); [|done].
  by destruct (latest_time acc).
Qed.

Lemma flag_process_channel cfg py pos channel e sb :
  rate_limit_encountered (process_channel cfg py pos channel e sb).1
  = rate_limited e channel || rate_limit_encountered sb.1.
Proof.
  destruct sb as [st bf]. unfold process_channel, rate_limited.
  destruct (existing _) as [old ids].
  destruct (bool_decide _ || negb _); simpl; [done|].
  by rewrite flag_save_new.
Qed.

Lemma flag_process_channels cfg py env i batch st :
  rate_limit_encountered (process_channels cfg py env i batch st).1
  = observed_rate_limit env i batch || rate_limit_encountered st.
Proof.
  unfold process_channels, observed_rate_limit.
  change (rate_limit_encountered st) with (rate_limit_encountered (st, 0%nat).1).
  generalize (st, 0%nat). generalize (positioned i batch).
  induction l as [|pc l IH]; intros sb; simpl; [done|].
  rewrite IH, flag_process_channel.
  by destruct (rate_limited (env pc.1) pc.2), (existsb _ l).
Qed.

(** After a batch the flag tells whether one of the channels it processed
    had a fetch error that mentions 429. *)
Lemma flag_process_batch cfg py env channels batch_size st i :
  rate_limit_encountered (process_batch cfg py env channels batch_size st i)
  = observed_rate_limit env i (kept_batch channels batch_size st i).
Proof.
  unfold process_batch, kept_batch.
  set (bd := prepare_batch _ _).
  pose proof (flag_process_channels cfg py env i bd.1 (clear_flag bd.2 st)) as H.
  destruct (process_channels cfg py env i bd.1 (clear_flag bd.2 st)) as [st' bf].
  simpl in H. rewrite orb_false_r in H. rewrite <- H.
  unfold adaptive_delay. by destruct (_ <? _)%nat.
Qed.

Lemma batch_with_flag cfg py env channels batch_size st i :
  rate_limit_encountered st = true ->
  let batch := Py.slice i batch_size channels in
  let s := length batch in
  let reduced := if (3 <? s)%nat then take (Nat.max 3 (s / 2)) batch else batch in
  let st0 := clear_flag (if (3 <? s)%nat then [30%nat] else []) st in
  process_batch cfg py env channels batch_size st i
    = adaptive_delay reduced (process_channels cfg py env i reduced st0)
  /\ rate_limit_encountered st0 = false
  /\ ((3 < s)%nat ->
      length reduced = Nat.max 3 (s / 2) /\
      trace st0 = (trace st ++ [Sleep 30])%list)
  /\ ((s <= 3)%nat -> reduced = batch /\ trace st0 = trace st).
Proof.
  intros Hflag batch s reduced st0. repeat split.
  - unfold process_batch, prepare_batch. rewrite Hflag. simpl.
    fold batch. fold s. subst reduced st0.
    by destruct (3 <? s)%nat.
  - subst reduced. destruct (Nat.ltb_spec 3 s); [|lia].
    rewrite length_take. fold s.
    assert (s / 2 <= s)%nat by (apply Nat.Div0.div_le_upper_bound; lia).
    lia.
  - subst st0. destruct (Nat.ltb_spec 3 s); [done|lia].
  - subst reduced. destruct (Nat.ltb_spec 3 s); [lia|done].
  - subst st0. destruct (Nat.ltb_spec 3 s); [lia|]. simpl.
    by rewrite app_nil_r.
Qed.

(** C8. When the batch at [j] observed a rate-limit signal (a fetch error
    that mentions 429), the batch processed next, of [s] channels, is cut to
    its first [max 3 (s / 2)] channels after a sleep of 30 seconds if
    [s > 3], and is processed whole without the sleep otherwise; in both
    cases its channels are processed from a state whose flag is cleared. *)
Theorem rate_limited_batch (cfg : Config) (py : PyEnv) (env : nat -> ChannelEnv)
    (channels : list string) (batch_size : nat) (st : State) (j i : nat) :
  observed_rate_limit env j (kept_batch channels batch_size st j) = true ->
  let st1 := process_batch cfg py env channels batch_size st j in
  let batch := Py.slice i batch_size channels in
  let s := length batch in
  let reduced := if (3 <? s)%nat then take (Nat.max 3 (s / 2)) batch else batch in
  let st0 := clear_flag (if (3 <? s)%nat then [30%nat] else []) st1 in
  process_batch cfg py env channels batch_size st1 i
    = adaptive_delay reduced (process_channels cfg py env i reduced st0)
  /\ rate_limit_encountered st0 = false
  /\ ((3 < s)%nat ->
      length reduced = Nat.max 3 (s / 2) /\
      trace st0 = (trace st1 ++ [Sleep 30])%list)
  /\ ((s <= 3)%nat -> reduced = batch /\ trace st0 = trace st1).
Proof.
  intros Hobs st1. apply batch_with_flag.
  subst st1. by rewrite flag_process_batch.
Qed.

Lemma rate_limited_batch_witness :
  let st1 := process_batch (local_config 0) sample_py limited_env twenty_channels 10
               (start ∅ fresh_world) 0 in
  process_batch (local_config 0) sample_py limited_env twenty_channels 10 st1 10
  = adaptive_delay ["d0"; "d1"; "d2"; "d3"; "d4"]
      (process_channels (local_config 0) sample_py limited_env 10
         ["d0"; "d1"; "d2"; "d3"; "d4"] (clear_flag [30%nat] st1)).
Proof.
  exact (proj1 (rate_limited_batch (local_config 0) sample_py limited_env
                  twenty_channels 10 (start ∅ fresh_world) 0 10 eq_refl)).
Defined.

End Batches.

(** ** Rate limiting in the fetcher *)

Section Fetcher.
Import Network.

Lemma attempts_requests channel retries responses remaining sl :
  (remaining <= retries)%nat ->
  (requests (attempts channel retries responses remaining sl) <= retries)%nat.
Proof.
  revert sl. induction remaining as [|r IH]; intros sl Hle; simpl; [done|].
  assert (S (retries - S r) <= retries)%nat by lia.
  assert (r <= retries)%nat by lia.
  destruct (responses (retries - S r)%nat) as [code e|ok msgs|e|e|e|e];
    repeat (match goal with |- context [if ?b then _ else _] => destruct b end);
    simpl; auto.
Qed.

Lemma attempts_all_429 channel retries responses remaining sl :
  (remaining <= retries)%nat ->
  (forall a, (a < retries)%nat -> exists e, responses a = HTTPError 429 e) ->
  attempts channel retries responses remaining sl
  = mkFetchResult no_data (Some "Max retries reached") retries
      (sl ++ (rate_limit_wait <$> seq (retries - remaining) remaining))%list.
Proof.
  intros Hle H429. revert sl Hle.
  induction remaining as [|r IH]; intros sl Hle.
  - simpl. by rewrite app_nil_r.
  - cbn [attempts]. destruct (H429 (retries - S r)%nat) as [e ->]; [lia|].
    simpl Nat.eqb. cbv iota. rewrite IH by lia.
    unfold finish. f_equal. rewrite <- app_assoc. f_equal.
    simpl. unfold rate_limit_wait at 2.
    replace (S (retries - S r)) with (retries - r)%nat by lia. done.
Qed.

(** The sleeps of a fetch, attempt by attempt, and the attempt after a
    429. *)
Lemma attempts_sleeps channel retries responses remaining sl :
  (remaining <= retries)%nat ->
  let r := attempts channel retries responses remaining sl in
  (retries - remaining <= requests r)%nat /\
  ((0 < remaining)%nat -> (retries - remaining < requests r)%nat) /\
  sleeps r
  = (sl ++ concat (wait_after retries responses
                   <$> seq (retries - remaining)
                         (requests r - (retries - remaining))))%list /\
  (forall a e, (retries - remaining <= a < requests r)%nat ->
               responses a = HTTPError 429 e ->
               ((S a < retries)%nat -> (S a < requests r)%nat) /\
               (S a = retries -> error r = Some "Max retries reached")).
Proof.
  revert sl. induction remaining as [|rem IH]; intros sl Hle.
  - cbn [attempts finish requests sleeps].
    replace (retries - (retries - 0))%nat with 0%nat by lia.
    cbn [seq fmap list_fmap concat]. rewrite app_nil_r.
    repeat split; intros; try lia.
  - cbn [attempts]. set (a0 := (retries - S rem)%nat).
    assert (Ha1 : (retries - rem)%nat = S a0) by (unfold a0; lia).
    assert (Hfin : forall d err,
              wait_after retries responses a0 = [] ->
              (forall e, responses a0 <> HTTPError 429 e) ->
              let r := finish d err (S a0) sl in
              (a0 <= requests r)%nat /\
              ((0 < S rem)%nat -> (a0 < requests r)%nat) /\
              sleeps r
              = (sl ++ concat (wait_after retries responses
                               <$> seq a0 (requests r - a0)))%list /\
              (forall a e, (a0 <= a < requests r)%nat ->
                           responses a = HTTPError 429 e ->
                           ((S a < retries)%nat -> (S a < requests r)%nat) /\
                           (S a = retries -> error r = Some "Max retries reached"))).
    { intros d err Hw Hno. cbn [finish requests sleeps].
      replace (S a0 - a0)%nat with 1%nat by lia.
      cbn [seq fmap list_fmap concat]. rewrite Hw, !app_nil_r.
      split; [lia|]. split; [lia|]. split; [done|].
      intros a e Ha E. assert (a = a0) as -> by lia. by apply Hno in E. }
    assert (Hcont : forall w,
              wait_after retries responses a0 = w ->
              let r := attempts channel retries responses rem (sl ++ w)%list in
              (a0 <= requests r)%nat /\
              ((0 < S rem)%nat -> (a0 < requests r)%nat) /\
              sleeps r
              = (sl ++ concat (wait_after retries responses
                               <$> seq a0 (requests r - a0)))%list /\
              (forall a e, (a0 <= a < requests r)%nat ->
                           responses a = HTTPError 429 e ->
                           ((S a < retries)%nat -> (S a < requests r)%nat) /\
                           (S a = retries -> error r = Some "Max retries reached"))).
    { intros w Hw.
      destruct (IH (sl ++ w)%list) as (H1 & H2 & H3 & H4); [lia|].
      rewrite Ha1 in H1, H2, H3, H4.
      set (r := attempts channel retries responses rem (sl ++ w)%list) in *.
      cbv zeta. split; [lia|]. split; [lia|]. split.
      - rewrite H3.
        replace (requests r - a0)%nat with (S (requests r - S a0)) by lia.
        cbn [seq fmap list_fmap concat]. rewrite Hw.
        by rewrite <- !app_assoc.
      - intros a e Ha E. destruct (decide (a = a0)) as [->|Hne].
        + split; [intros Hlt; apply H2; lia|].
          intros Hlast. unfold r. destruct rem; [reflexivity|lia].
        + apply (H4 a e); [lia|done]. }
    destruct (responses a0) as [code e|ok msgs|e|e|e|e] eqn:E.
    + destruct (Nat.eqb_spec code 404) as [->|H404].
      { apply Hfin; [unfold wait_after; by rewrite E|congruence]. }
      destruct (Nat.eqb_spec code 403) as [->|H403].
      { apply Hfin; [unfold wait_after; by rewrite E|congruence]. }
      destruct (Nat.eqb_spec code 429) as [->|H429].
      { apply Hcont. unfold wait_after. by rewrite E. }
      assert (Hw : wait_after retries responses a0 = []).
      { unfold wait_after. rewrite E.
        by destruct (Nat.eqb_spec code 429). }
      destruct (500 <=? code)%nat; [apply Hfin; [done|congruence]|].
      destruct (negb _); [apply Hfin; [done|congruence]|].
      specialize (Hcont [] Hw). by rewrite app_nil_r in Hcont.
    + destruct ok; apply Hfin; try (unfold wait_after; by rewrite E); congruence.
    + apply Hfin; [unfold wait_after; by rewrite E|congruence].
    + destruct (a0 <? retries - 1)%nat eqn:Hl; cbn [negb].
      * apply Hcont. unfold wait_after. by rewrite E, Hl.
      * apply Hfin; [unfold wait_after; by rewrite E, Hl|congruence].
    + destruct (negb _).
      * apply Hfin; [unfold wait_after; by rewrite E|congruence].
      * assert (Hw : wait_after retries responses a0 = [])
          by (unfold wait_after; by rewrite E).
        specialize (Hcont [] Hw). by rewrite app_nil_r in Hcont.
    + destruct (negb _).
      * apply Hfin; [unfold wait_after; by rewrite E|congruence].
      * assert (Hw : wait_after retries responses a0 = [])
          by (unfold wait_after; by rewrite E).
        specialize (Hcont [] Hw). by rewrite app_nil_r in Hcont.
Qed.

(** C6, as the code has it. A fetch makes at most [retries] requests and
    its sleeps are those of its attempts in order. When attempt [a] of a
    fetch receives a 429, whatever the other attempts received, the
    fetcher sleeps [min 60 (20 * (a + 1))] seconds at that point and goes
    on to attempt [a + 1] if the loop has one left: the 429 has used up
    one of the [retries] attempts. When every attempt receives a 429 the
    fetch ends after [retries] requests with the error
    "Max retries reached". *)
Theorem rate_limit_consumes_attempts (channel : string) (retries : nat)
    (responses : nat -> Response) :
  let r := fetch_channel_data channel retries responses in
  (requests r <= retries)%nat /\
  sleeps r = concat (wait_after retries responses <$> seq 0 (requests r)) /\
  (forall a e,
     (a < requests r)%nat -> responses a = HTTPError 429 e ->
     sleeps r
     = (concat (wait_after retries responses <$> seq 0 a)
        ++ [Nat.min 60 (20 * (a + 1))]
        ++ concat (wait_after retries responses
                   <$> seq (S a) (requests r - S a)))%list /\
     ((S a < retries)%nat -> (S a < requests r)%nat) /\
     (S a = retries -> error r = Some "Max retries reached")) /\
  ((forall a, (a < retries)%nat -> exists e, responses a = HTTPError 429 e) ->
   r = mkFetchResult no_data (Some "Max retries reached") retries
         (rate_limit_wait <$> seq 0 retries)).
Proof.
  intros r.
  destruct (attempts_sleeps channel retries responses retries []) as (_ & _ & Hs & Hn);
    [lia|].
  fold (fetch_channel_data channel retries responses) in Hs, Hn. fold r in Hs, Hn.
  rewrite Nat.sub_diag, Nat.sub_0_r in Hs. simpl in Hs.
  rewrite Nat.sub_diag in Hn.
  split; [by apply attempts_requests|]. split; [done|]. split.
  - intros a e Ha E. split; [|split].
    + assert (Hw : wait_after retries responses a = [Nat.min 60 (20 * (a + 1))]).
      { unfold wait_after. rewrite E, Nat.eqb_refl. f_equal. lia. }
      assert (Hseq : seq 0 (requests r)
                     = (seq 0 a ++ a :: seq (S a) (requests r - S a))%list).
      { replace (requests r) with (a + S (requests r - S a))%nat at 1 by lia.
        by rewrite seq_app. }
      rewrite Hs, Hseq, fmap_app, concat_app, fmap_cons. cbn [concat].
      by rewrite Hw.
    + apply (Hn a e); [lia|done].
    + apply (Hn a e); [lia|done].
  - intros H429. unfold r, fetch_channel_data. rewrite attempts_all_429 by done.
    by rewrite Nat.sub_diag.
Qed.

(** A timeout, a 429 and then the page, with three attempts: the fetch
    sleeps 40 seconds after the second attempt and returns the page. *)
Lemma rate_limit_consumes_attempts_witness :
  sleeps (fetch_channel_data "foo" 3 timeout_then_limited) = [40%nat]
  /\ requests (fetch_channel_data "foo" 3 timeout_then_limited) = 3%nat.
Proof.
  assert (H : (1 < requests (fetch_channel_data "foo" 3 timeout_then_limited))%nat)
    by (vm_compute; lia).
  split; [|reflexivity].
  rewrite (proj1 (proj1 (proj2 (proj2 (rate_limit_consumes_attempts "foo" 3
                                         timeout_then_limited)))
                    1%nat "429 Client Error" H eq_refl)).
  reflexivity.
Defined.

(** With the default two attempts, two 429 responses exhaust the loop
    and the page of the third response is never asked for. *)
Lemma rate_limits_counted : ~ rate_limits_uncounted "foo" 2 limited_twice.
Proof.
  intros H. specialize (H 2%nat [ExtractsNone]).
  assert (E : channel_data (fetch_channel_data "foo" 2 limited_twice)
              = mkChannelData [ExtractsNone] true).
  { apply H; [lia| |reflexivity].
    intros a Ha. exists "429 Client Error". unfold limited_twice.
    destruct (Nat.ltb_spec a 2); [reflexivity|lia]. }
  discriminate E.
Qed.

End Fetcher.

(** ** Startup without channels *)

Section Startup.
Import App.

(** C7, as the code has it. With the channel list missing, empty, not
    JSON or not an array, [run] logs "No channels to crawl" and returns
    before a crawler is built, so the process ends with exit status 0;
    the same condition inside [EitaaCrawler.run] calls [exit(1)]. *)
Theorem no_channels_exit_status (args : Args) (f : ChannelsFile) (checks_ok : bool) :
  f = Missing \/ f = NotJSON \/ f = JSONOther \/ f = JSONArray [] ->
  (run args f checks_ok).1 = Returned /\
  last (run args f checks_ok).2 = Some "No channels to crawl" /\
  main args f checks_ok = Some 0%nat /\
  (crawler_run 1800 [] (require_proxies args) checks_ok).1 = SysExit 1.
Proof. intros [-> | [-> | [-> | ->]]]; repeat split. Qed.

Lemma no_channels_exit_status_witness :
  main (mkArgs None false false) Missing true = Some 0%nat.
Proof.
  apply (no_channels_exit_status (mkArgs None false false) Missing true).
  by left.
Defined.

End Startup.

(** ** The proxy pool after a refresh *)

Section ProxyPool.
Import Proxy.

Lemma attempt_result_true p :
  attempt_result p = Some true ->
  exists proxy_ip own_ip o,
    google p = Responded 200 o /\
    httpbin p = Responded 200 (Some proxy_ip) /\
    local_ip p = Some own_ip /\ proxy_ip <> own_ip.
Proof.
  unfold attempt_result.
  destruct (google p) as [|c o]; [done|].
  destruct (Nat.eqb_spec c 200) as [->|]; [simpl|done].
  destruct (httpbin p) as [|c2 [ip|]]; [done| |].
  - destruct (Nat.eqb_spec c2 200) as [->|]; [simpl|done].
    destruct (local_ip p) as [l|]; [|done].
    destruct (String.eqb_spec ip l); [done|].
    intros _. by exists ip, l, o.
  - by destruct (c2 =? 200)%nat.
Qed.

Lemma test_proxy_true net proxy :
  test_proxy net proxy = true -> passes_two_stage net proxy.
Proof.
  unfold test_proxy.
  destruct (attempt_result (net proxy 0%nat)) as [b|] eqn:E0.
  - intros ->. destruct (attempt_result_true _ E0) as (ip & l & o & ?).
    exists 0%nat, ip, l, o. split; [lia|done].
  - destruct (attempt_result (net proxy 1%nat)) as [b|] eqn:E1; [|done].
    intros ->. destruct (attempt_result_true _ E1) as (ip & l & o & ?).
    exists 1%nat, ip, l, o. split; [lia|done].
Qed.

(** C9. After a refresh that rebuilds the pool, every member is one of
    the fetched candidates, [test_proxy] returned [True] for it, and hence
    it passed both stages of the test. *)
Theorem refreshed_pool_tested (net : string -> nat -> Probe)
    (sources : list (option (list string))) (current_time : Z)
    (pm : ProxyManager) (proxy : string) :
  fresh pm current_time = false ->
  proxy ∈ proxy_pool (refresh_proxy_pool net sources current_time pm) ->
  proxy ∈ fetch_proxy_list sources /\
  test_proxy net proxy = true /\
  passes_two_stage net proxy.
Proof.
  intros Hfresh. unfold refresh_proxy_pool. rewrite Hfresh. simpl.
  rewrite list_elem_of_In, filter_In, <- list_elem_of_In.
  intros [Hin Ht]. auto using test_proxy_true.
Qed.

Lemma refreshed_pool_tested_witness :
  proxy_pool (refresh_proxy_pool sample_net sample_sources 10
                (mkProxyManager [] 0 3600)) = ["http://1.2.3.4:80"]
  /\ passes_two_stage sample_net "http://1.2.3.4:80".
Proof.
  split; [reflexivity|].
  apply (refreshed_pool_tested sample_net sample_sources 10
           (mkProxyManager [] 0 3600) "http://1.2.3.4:80").
  - reflexivity.
  - apply list_elem_of_here.
Defined.

End ProxyPool.

(** ** Local files and broker delivery *)

Section Durability.
Import Storage.

Lemma dict_get_set_eq {V} k (v : V) d : Py.dict_get k (Py.dict_set k v d) = Some v.
Proof.
  induction d as [|[k' v'] d IH]; simpl.
  - by rewrite String.eqb_refl.
  - destruct (String.eqb_spec k k') as [->|Hne]; simpl.
    + by rewrite String.eqb_refl.
    + by destruct (String.eqb_spec k k').
Qed.

(** A failed delivery leaves every file where it is. *)
Lemma failed_report_keeps_files e k w :
  files (delivery_report (Some e) k w) = files w.
Proof.
  unfold delivery_report. by destruct (Py.dict_get k (pending w)).
Qed.

(** A confirmed delivery removes at most the file tracked under its key. *)
Lemma confirmed_report_files k w :
  files (delivery_report None k w)
  = match Py.dict_get k (pending w) with
    | Some filepath => delete filepath (files w)
    | None => files w
    end.
Proof.
  unfold delivery_report. destruct (Py.dict_get k (pending w)) as [p|]; [|done].
  unfold exists_file. case_bool_decide as Hex; simpl; [done|].
  symmetry. apply delete_id. destruct (files w !! p) eqn:E; [|done].
  exfalso. apply Hex. by eexists.
Qed.

Lemma serve_keeps_or_confirms rs q w p :
  files (serve rs q w).2 !! p = files w !! p \/ None ∈ rs.
Proof.
  revert q w. induction rs as [|r rs IH]; intros q w; simpl; [by left|].
  destruct q as [|k q]; simpl; [by left|].
  destruct r as [e|]; [|right; apply list_elem_of_here].
  destruct (IH q (delivery_report (Some e) k w)) as [->|?].
  - left. by rewrite failed_report_keeps_files.
  - right. by apply list_elem_of_further.
Qed.

Lemma files_produce_all k (l : list Msg) w :
  files (foldl (fun w0 _ => produce k w0) w l) = files w.
Proof.
  revert w. induction l as [|x l IH]; intros w; simpl; [done|]. by rewrite IH.
Qed.

Lemma files_send_chunk py p w c : files (send_chunk py p w c) = files w.
Proof. unfold send_chunk. by rewrite files_produce_all. Qed.

Lemma files_foldl_send_chunk py p w cs :
  files (foldl (send_chunk py p) w cs) = files w.
Proof.
  revert w. induction cs as [|c cs IH]; intros w; simpl; [done|].
  by rewrite IH, files_send_chunk.
Qed.

Lemma files_flush rs w : files (flush rs w) = files (serve rs (in_flight (kafka w)) w).2.
Proof. unfold flush. by destruct (serve rs (in_flight (kafka w)) w). Qed.

Lemma flush_keeps_or_confirms rs w p :
  files (flush rs w) !! p = files w !! p \/ None ∈ rs.
Proof. rewrite files_flush. apply serve_keeps_or_confirms. Qed.

Lemma files_init_producer cfg e w : files (init_producer cfg e w).2 = files w.
Proof.
  unfold init_producer. destruct (USE_KAFKA cfg); [|done]. by destruct (init_ok e).
Qed.

Lemma send_keeps_or_confirms cfg py d p e w q :
  files (send cfg py d p e w).2 !! q = files w !! q \/ None ∈ reports e.
Proof.
  unfold send. destruct (USE_KAFKA cfg); simpl; [|by left].
  assert (H : exists b w1, (if producer (kafka w) then (true, w)
                            else init_producer cfg e w) = (b, w1)
                           /\ files w1 = files w).
  { destruct (producer (kafka w)); [by exists true, w|].
    exists (init_producer cfg e w).1, (init_producer cfg e w).2.
    split; [by destruct (init_producer cfg e w)|apply files_init_producer]. }
  destruct H as (b & w1 & -> & Hw1). rewrite <- Hw1.
  destruct b; simpl; [|by left].
  destruct d as [l|m].
  - destruct (produce_ok e || bool_decide (l = [])); simpl; [|by left].
    destruct (flush_keeps_or_confirms (reports e)
                (foldl (send_chunk py p) w1
                   ((fun i => Py.slice i 1000 l) <$> Py.range_step (length l) 1000)) q)
      as [->|?]; [left|by right].
    by rewrite files_foldl_send_chunk.
  - destruct (produce_ok e); simpl; [|by left].
    destruct (flush_keeps_or_confirms (reports e)
                (produce (dict_msg_key py m)
                   (track_file_for_deletion (dict_msg_key py m) p w1)) q)
      as [->|?]; [by left|by right].
Qed.

(** What does hold of every save through the hybrid strategy: the file
    is written before the broker is tried, and afterwards it is on disk
    unless one of the delivery reports served by the flush was a success. *)
Lemma hybrid_save_file_or_confirmed cfg py d p e w :
  exists_file p (Hybrid_save cfg py d p e w).2 = true \/ None ∈ reports e.
Proof.
  unfold Hybrid_save, exists_file.
  destruct (USE_KAFKA cfg); simpl.
  - destruct (send_keeps_or_confirms cfg py d p e (Local_save d p w) p) as [E|?];
      [left|by right].
    rewrite E. apply bool_decide_eq_true. simpl. rewrite lookup_insert_eq. by eexists.
  - left. apply bool_decide_eq_true. rewrite lookup_insert_eq. by eexists.
Qed.

Lemma serve_nil_queue rs w : serve rs [] w = ([], w).
Proof. by destruct rs. Qed.

(** C3, as the code has it. The checkpoint mapping is saved through the
    hybrid strategy like any batch: with the broker enabled and the
    delivery of the checkpoint payload confirmed, the callback removes the
    checkpoint file, and the next startup loads an empty mapping. *)
Theorem checkpoint_file_removed_on_delivery (cfg : Config) (py : PyEnv)
    (times : gmap string (option Z)) (e : SendEnv) (rs : list (option string))
    (w : World) :
  USE_KAFKA cfg = true ->
  producer (kafka w) = true ->
  in_flight (kafka w) = [] ->
  produce_ok e = true ->
  reports e = None :: rs ->
  let w' := Crawler._save_last_crawled_times cfg py times e w in
  exists_file (LAST_TIME_FILE cfg) w' = false /\
  Crawler._load_last_crawled_times cfg w' = Some ∅.
Proof.
  intros HK Hp Hq Hok Hrs w'.
  assert (Hf : files w' !! LAST_TIME_FILE cfg = None).
  { subst w'. unfold Crawler._save_last_crawled_times, Hybrid_save, send.
    rewrite HK. simpl. rewrite Hp, Hok. simpl.
    rewrite files_flush, Hrs.
    set (k := dict_msg_key py times).
    set (w1 := Local_save (Times times) (LAST_TIME_FILE cfg) w).
    set (w2 := produce k (track_file_for_deletion k (LAST_TIME_FILE cfg) w1)).
    assert (Eq : in_flight (kafka w2) = [k]) by (simpl; by rewrite Hq).
    assert (Ep : pending w2 = Py.dict_set k (LAST_TIME_FILE cfg) (pending w)) by done.
    rewrite Eq. cbn [serve]. rewrite serve_nil_queue. cbn [snd].
    rewrite confirmed_report_files, Ep, dict_get_set_eq.
    apply lookup_delete_eq. }
  split.
  - unfold exists_file. rewrite Hf. apply bool_decide_eq_false.
    by intros [? ?].
  - unfold Crawler._load_last_crawled_times, Hybrid_load, Local_load.
    by rewrite Hf.
Qed.

Lemma checkpoint_file_removed_on_delivery_witness :
  exists_file (LAST_TIME_FILE (kafka_config 0))
    (Crawler._save_last_crawled_times (kafka_config 0) sample_py
       {["foo" := Some 150]} (mkSendEnv true true [None]) fresh_world) = false.
Proof.
  exact (proj1 (checkpoint_file_removed_on_delivery (kafka_config 0) sample_py
                  {["foo" := Some 150]} (mkSendEnv true true [None]) []
                  fresh_world eq_refl eq_refl eq_refl eq_refl eq_refl)).
Defined.

(** C2, as the code has it. The records of a batch are published under
    one key and each has its own delivery report: when the first record
    is confirmed the callback removes the local file, so a failed
    delivery of the second record leaves that record neither on disk nor
    with the broker. *)
Theorem partial_delivery_removes_file (cfg : Config) (py : PyEnv)
    (m1 m2 : Msg) (filepath : path) (err : string) (e : SendEnv) (w : World) :
  USE_KAFKA cfg = true ->
  producer (kafka w) = true ->
  in_flight (kafka w) = [] ->
  produce_ok e = true ->
  reports e = [None; Some err] ->
  let w' := (Hybrid_save cfg py (Messages [m1; m2]) filepath e w).2 in
  exists_file filepath (Local_save (Messages [m1; m2]) filepath w) = true /\
  exists_file filepath w' = false /\
  in_flight (kafka w') = [].
Proof.
  intros HK Hp Hq Hok Hrs w'.
  set (w1 := Local_save (Messages [m1; m2]) filepath w).
  set (k := batch_key py [m1; m2]).
  set (w2 := send_chunk py filepath w1 [m1; m2]).
  assert (E : w' = flush [None; Some err] w2).
  { subst w'. unfold Hybrid_save, send. rewrite HK. cbn [negb].
    fold w1. change (producer (kafka w1)) with (producer (kafka w)).
    rewrite Hp, Hok, Hrs. reflexivity. }
  assert (Eq : in_flight (kafka w2) = [k; k]).
  { change (in_flight (kafka w2)) with ((in_flight (kafka w) ++ [k]) ++ [k])%list.
    by rewrite Hq. }
  assert (Es : serve [None; Some err] [k; k] w2
               = ([], delivery_report (Some err) k (delivery_report None k w2)))
    by reflexivity.
  split; [|split].
  - unfold exists_file. apply bool_decide_eq_true. simpl.
    rewrite lookup_insert_eq. by eexists.
  - rewrite E. unfold exists_file. apply bool_decide_eq_false.
    rewrite files_flush, Eq, Es. cbn [snd].
    rewrite failed_report_keeps_files, confirmed_report_files.
    change (pending w2) with (Py.dict_set k filepath (pending w)).
    rewrite dict_get_set_eq, lookup_delete_eq. by intros [? ?].
  - rewrite E. unfold flush. by rewrite Eq, Es.
Qed.

Lemma partial_delivery_removes_file_witness :
  exists_file ("./output/messages/foo", "messages_2024-01-01T00-00-00.json")
    (Hybrid_save (kafka_config 0) sample_py
       (Messages [post 1 50; post 2 60])
       ("./output/messages/foo", "messages_2024-01-01T00-00-00.json")
       (mkSendEnv true true [None; Some "MSG_SIZE_TOO_LARGE"]) fresh_world).2
  = false.
Proof.
  exact (proj1 (proj2 (partial_delivery_removes_file (kafka_config 0) sample_py
           (post 1 50) (post 2 60)
           ("./output/messages/foo", "messages_2024-01-01T00-00-00.json")
           "MSG_SIZE_TOO_LARGE"
           (mkSendEnv true true [None; Some "MSG_SIZE_TOO_LARGE"]) fresh_world
           eq_refl eq_refl eq_refl eq_refl eq_refl))).
Defined.

End Durability.

(** ** Checkpoints only move forward *)

Section Checkpoints.
Import Crawler.

Lemma advances_refl m : advances m m.
Proof. intros c t H. exists t. split; [done|lia]. Qed.

Lemma advances_trans m1 m2 m3 : advances m1 m2 -> advances m2 m3 -> advances m1 m3.
Proof.
  intros H12 H23 c t H. destruct (H12 c t H) as (t2 & H2 & ?).
  destruct (H23 c t2 H2) as (t3 & H3 & ?). exists t3. split; [done|lia].
Qed.

(** The candidate never falls below the value it has. *)
Lemma foldl_message_step_latest last_time ids raws acc t :
  latest_time acc = Some t ->
  exists t', latest_time (foldl (message_step last_time ids) acc raws) = Some t'
             /\ t <= t'.
Proof.
  revert acc t. induction raws as [|r raws IH]; intros acc t Hacc; simpl.
  - exists t. split; [done|lia].
  - assert (H : exists t1, latest_time (message_step last_time ids acc r) = Some t1
                           /\ t <= t1).
    { destruct r as [msg| |]; simpl; try (exists t; split; [done|lia]).
      destruct (posted_time msg) as [pt|]; [|exists t; split; [done|lia]].
      destruct (is_new last_time ids msg pt); [|exists t; split; [done|lia]].
      simpl. rewrite Hacc. exists (Z.max t pt). split; [done|lia]. }
    destruct H as (t1 & H1 & ?). destruct (IH _ _ H1) as (t' & ? & ?).
    exists t'. split; [done|lia].
Qed.

Lemma process_messages_latest last_time ids raws t :
  last_time = Some t ->
  exists t', latest_time (process_messages last_time ids raws) = Some t' /\ t <= t'.
Proof. intros ->. by apply foldl_message_step_latest. Qed.

Lemma insert_advances m channel t' :
  (forall t, get_last_time m channel = Some t -> t <= t') ->
  advances m (<[channel := Some t']> m).
Proof.
  intros Hle c t H. unfold get_last_time in *.
  destruct (decide (c = channel)) as [->|Hne].
  - rewrite lookup_insert_eq. exists t'. split; [done|]. by apply Hle.
  - rewrite lookup_insert_ne by done. exists t. split; [done|lia].
Qed.

Lemma save_new_advances cfg py pos channel e old acc st :
  (forall t, get_last_time (last_crawled_times st) channel = Some t ->
             exists t', latest_time acc = Some t' /\ t <= t') ->
  advances (last_crawled_times st)
    (last_crawled_times (save_new cfg py pos channel e old acc st)).
Proof.
  intros Hacc. unfold save_new.
  destruct (new_messages acc); [apply advances_refl|].
  destruct old; [|apply advances_refl].
  destruct (save_ok e); [|apply advances_refl].
  destruct (latest_time acc) as [t'|] eqn:E; simpl; [|apply advances_refl].
  apply insert_advances. intros t Ht.
  destruct (Hacc t Ht) as (t1 & [= <-] & ?). done.
Qed.

Lemma process_channel_advances cfg py pos channel e sb :
  advances (last_crawled_times sb.1)
    (last_crawled_times (process_channel cfg py pos channel e sb).1).
Proof.
  destruct sb as [st bf]. unfold process_channel.
  destruct (existing _) as [old ids].
  match goal with |- context [if ?b then _ else _] => destruct b end;
    simpl; [apply advances_refl|].
  match goal with |- context [save_new _ _ _ _ _ _ ?a ?s] =>
    apply (save_new_advances cfg py pos channel e old a s) end.
  simpl. intros t Ht. by apply process_messages_latest.
Qed.

Lemma process_channels_advances cfg py env i batch st :
  advances (last_crawled_times st)
    (last_crawled_times (process_channels cfg py env i batch st).1).
Proof.
  unfold process_channels.
  change (last_crawled_times st) with (last_crawled_times (st, 0%nat).1).
  generalize (st, 0%nat). generalize (positioned i batch).
  induction l as [|pc l IH]; intros sb; simpl; [apply advances_refl|].
  eapply advances_trans; [|apply IH]. apply process_channel_advances.
Qed.

Lemma process_batch_advances cfg py env channels batch_size st i :
  advances (last_crawled_times st)
    (last_crawled_times (process_batch cfg py env channels batch_size st i)).
Proof.
  unfold process_batch.
  set (bd := prepare_batch _ _).
  pose proof (process_channels_advances cfg py env i bd.1 (clear_flag bd.2 st)) as H.
  destruct (process_channels cfg py env i bd.1 (clear_flag bd.2 st)) as [st' bf].
  unfold adaptive_delay. simpl in *. by destruct (_ <? _)%nat.
Qed.

Lemma batches_advance cfg py env channels batch_size starts st :
  advances (last_crawled_times st)
    (last_crawled_times
       (foldl (process_batch cfg py env channels batch_size) st starts)).
Proof.
  revert st. induction starts as [|i starts IH]; intros st; simpl;
    [apply advances_refl|].
  eapply advances_trans; [|apply IH]. apply process_batch_advances.
Qed.

(** X28. A crawl cycle never moves a checkpoint of the mapping the
    crawler holds in memory back, whatever the batch size, the network and
    the broker: a channel that has a checkpoint [t] there before the cycle
    has a checkpoint [t' >= t] there after it. *)
Theorem checkpoint_monotone (cfg : Config) (py : PyEnv) (env : nat -> ChannelEnv)
    (channels : list string) (batch_size : nat)
    (times : gmap string (option Z)) (w : Storage.World) (channel : string) (t : Z) :
  get_last_time times channel = Some t ->
  exists t',
    get_last_time
      (last_crawled_times
         (crawl_new_messages_and_bios cfg py env channels batch_size times w))
      channel = Some t'
    /\ t <= t'.
Proof.
  intros H. unfold crawl_new_messages_and_bios.
  destruct channels as [|c cs].
  - exists t. split; [done|lia].
  - by apply (batches_advance cfg py env (c :: cs) batch_size _ (start times w)).
Qed.

(** Scenario B as a cycle: posts 1 and 2 are stored, the checkpoint is
    100, and the page shows posts 1, 2 and 3, the last one posted at 150. *)
Lemma scenario_B_cycle :
  trace (crawl_new_messages_and_bios (local_config 0) sample_py scenario_env
           ["foo"] 10 {["foo" := Some 100]} stored_world)
  = [Fetch 0 "foo"; Save 0 "foo" [post 1 50; post 2 100; post 3 150];
     Checkpoint 0 "foo" 150; Sleep 1].
Proof. vm_compute. reflexivity. Qed.

Lemma checkpoint_monotone_witness :
  get_last_time
    (last_crawled_times
       (crawl_new_messages_and_bios (local_config 0) sample_py scenario_env
          ["foo"] 10 {["foo" := Some 100]} stored_world)) "foo" = Some 150
  /\ exists t',
    get_last_time
      (last_crawled_times
         (crawl_new_messages_and_bios (local_config 0) sample_py scenario_env
            ["foo"] 10 {["foo" := Some 100]} stored_world)) "foo" = Some t'
    /\ 100 <= t'.
Proof.
  split; [vm_compute; reflexivity|].
  apply (checkpoint_monotone (local_config 0) sample_py scenario_env
           ["foo"] 10 {["foo" := Some 100]} stored_world "foo" 100).
  vm_compute. reflexivity.
Defined.

(** C4, as the code has it. With the broker on, one cycle takes the
    stored checkpoint of a channel from 100 to none: the cycle finds a post
    of time 150 and moves the checkpoint in memory to 150, the mapping is
    saved through the hybrid strategy, and the confirmed delivery removes
    the checkpoint file, so that a restart loads no checkpoint for the
    channel. (The bio save that follows the batch writes the bio store
    only and does not bring the file back.) *)
Theorem stored_checkpoint_falls_back :
  let cfg := kafka_config 0 in
  let st := crawl_new_messages_and_bios cfg sample_py confirming_env ["foo"] 10
              {["foo" := Some 100]} checkpointed_world in
  stored_checkpoint cfg checkpointed_world "foo" = Some 100 /\
  get_last_time (last_crawled_times st) "foo" = Some 150 /\
  Storage.exists_file (LAST_TIME_FILE cfg) (world st) = false /\
  stored_checkpoint cfg (world st) "foo" = None.
Proof. vm_compute. repeat split. Qed.

End Checkpoints.

(** ** Channels cut off a reduced batch *)

Section Truncation.
Import Crawler.

Lemma within_nil lo hi : within lo hi [].
Proof. intros ev q H. by apply elem_of_nil in H. Qed.

Lemma within_app lo hi tr1 tr2 :
  within lo hi tr1 -> within lo hi tr2 -> within lo hi (tr1 ++ tr2)%list.
Proof.
  intros H1 H2 ev q Hin. apply elem_of_app in Hin as [?|?]; eauto.
Qed.

Lemma within_weaken lo hi lo' hi' tr :
  (lo' <= lo)%nat -> (hi <= hi')%nat -> within lo hi tr -> within lo' hi' tr.
Proof. intros ? ? H ev q Hin Hq. specialize (H ev q Hin Hq). lia. Qed.

Lemma within_one pos ev :
  (event_pos ev = None \/ event_pos ev = Some pos) -> within pos (S pos) [ev].
Proof.
  intros H ev' q Hin Hq. apply list_elem_of_singleton in Hin as ->.
  destruct H as [H|H]; rewrite H in Hq; [done|]. injection Hq as <-. lia.
Qed.

Lemma extends_refl lo hi tr : extends lo hi tr tr.
Proof. exists []. split; [by rewrite app_nil_r|apply within_nil]. Qed.

Lemma extends_trans lo hi tr1 tr2 tr3 :
  extends lo hi tr1 tr2 -> extends lo hi tr2 tr3 -> extends lo hi tr1 tr3.
Proof.
  intros (m1 & -> & H1) (m2 & -> & H2). exists (m1 ++ m2)%list.
  split; [by rewrite app_assoc|by apply within_app].
Qed.

Lemma extends_weaken lo hi lo' hi' tr tr' :
  (lo' <= lo)%nat -> (hi <= hi')%nat -> extends lo hi tr tr' -> extends lo' hi' tr tr'.
Proof. intros ? ? (m & -> & H). exists m. eauto using within_weaken. Qed.

Lemma extends_log pos ev st :
  (event_pos ev = None \/ event_pos ev = Some pos) ->
  extends pos (S pos) (trace st) (trace (log ev st)).
Proof. intros H. exists [ev]. split; [done|by apply within_one]. Qed.

Lemma save_new_extends cfg py pos channel e old acc st :
  extends pos (S pos) (trace st) (trace (save_new cfg py pos channel e old acc st)).
Proof.
  unfold save_new.
  destruct (new_messages acc); [apply extends_refl|].
  destruct old; [|apply extends_refl].
  destruct (save_ok e); [|apply extends_refl].
  destruct (latest_time acc) as [t'|]; simpl.
  - eexists [Save pos channel _; Checkpoint pos channel t'].
    split; [by rewrite <- app_assoc|].
    apply (within_app _ _ [_] [_]); apply within_one; by right.
  - eexists [Save pos channel _]. split; [done|]. apply within_one. by right.
Qed.

Lemma process_channel_extends cfg py pos channel e sb :
  extends pos (S pos) (trace sb.1)
    (trace (process_channel cfg py pos channel e sb).1).
Proof.
  destruct sb as [st bf]. unfold process_channel.
  destruct (existing _) as [old ids].
  match goal with |- context [if ?b then _ else _] => destruct b end; simpl.
  - exists [Fetch pos channel]. split; [done|]. apply within_one. by right.
  - eapply extends_trans; [|apply extends_log; by left].
    eapply extends_trans; [|apply save_new_extends]. simpl.
    exists [Fetch pos channel]. split; [done|]. apply within_one. by right.
Qed.

Lemma positioned_cons i c batch :
  positioned i (c :: batch) = (i, c) :: positioned (S i) batch.
Proof.
  unfold positioned. rewrite imap_cons. f_equal.
  - f_equal. lia.
  - apply imap_ext. intros j x _. simpl. f_equal. lia.
Qed.

Lemma process_channels_extends cfg py env i batch st :
  extends i (i + length batch)%nat (trace st)
    (trace (process_channels cfg py env i batch st).1).
Proof.
  unfold process_channels.
  change (trace st) with (trace (st, 0%nat).1). generalize (st, 0%nat).
  revert i. induction batch as [|c batch IH]; intros i sb.
  - apply extends_refl.
  - rewrite positioned_cons. simpl.
    eapply extends_trans.
    + eapply extends_weaken; [| |apply (process_channel_extends cfg py i c (env i) sb)];
        lia.
    + eapply extends_weaken; [| |apply IH]; lia.
Qed.

Lemma adaptive_delay_extends lo hi batch sb :
  extends lo hi (trace sb.1) (trace (adaptive_delay batch sb)).
Proof.
  destruct sb as [st bf]. unfold adaptive_delay.
  destruct (_ <? _)%nat; [|apply extends_refl].
  exists [Sleep (Nat.min 60 (bf * 5))]. split; [done|].
  intros ev q Hin Hq. apply list_elem_of_singleton in Hin as ->. done.
Qed.

Lemma clear_flag_extends lo hi delay st :
  extends lo hi (trace st) (trace (clear_flag delay st)).
Proof.
  exists (Sleep <$> delay). split; [done|].
  intros ev q Hin Hq. apply list_elem_of_fmap in Hin as (n & -> & _). done.
Qed.

(** A batch touches only the positions of the channels it keeps. *)
Lemma process_batch_extends cfg py env channels batch_size st i :
  extends i
    (i + length (prepare_batch (rate_limit_encountered st)
                   (Py.slice i batch_size channels)).1)%nat
    (trace st) (trace (process_batch cfg py env channels batch_size st i)).
Proof.
  unfold process_batch. set (bd := prepare_batch _ _).
  eapply extends_trans; [apply clear_flag_extends|].
  eapply extends_trans; [apply process_channels_extends|].
  apply adaptive_delay_extends.
Qed.

Lemma length_slice_le {A} i n (l : list A) : (length (Py.slice i n l) <= n)%nat.
Proof. unfold Py.slice. rewrite length_take. lia. Qed.

Lemma length_prepare_batch_le {A} flag (batch : list A) :
  (length (prepare_batch flag batch).1 <= length batch)%nat.
Proof.
  unfold prepare_batch. destruct (flag && _); simpl; [|done].
  rewrite length_take. lia.
Qed.

Lemma batches_extend cfg py env channels batch_size starts st :
  exists more,
    trace (foldl (process_batch cfg py env channels batch_size) st starts)
    = (trace st ++ more)%list /\
    forall ev q, ev ∈ more -> event_pos ev = Some q ->
                 exists i, i ∈ starts /\ (i <= q < i + batch_size)%nat.
Proof.
  revert st. induction starts as [|i starts IH]; intros st; simpl.
  - exists []. split; [by rewrite app_nil_r|]. intros ev q H. by apply elem_of_nil in H.
  - destruct (IH (process_batch cfg py env channels batch_size st i))
      as (m2 & -> & H2).
    destruct (process_batch_extends cfg py env channels batch_size st i)
      as (m1 & -> & H1).
    exists (m1 ++ m2)%list. split; [by rewrite app_assoc|].
    intros ev q Hin Hq. apply elem_of_app in Hin as [Hin|Hin].
    + exists i. split; [apply list_elem_of_here|].
      specialize (H1 ev q Hin Hq).
      pose proof (length_prepare_batch_le (rate_limit_encountered st)
                    (Py.slice i batch_size channels)).
      pose proof (length_slice_le i batch_size channels). lia.
    + destruct (H2 ev q Hin Hq) as (j & ? & ?). exists j.
      split; [by apply list_elem_of_further|done].
Qed.

Lemma range_step_lookup stop step j x :
  Py.range_step stop step !! j = Some x -> x = (j * step)%nat.
Proof.
  unfold Py.range_step. rewrite list_lookup_fmap.
  destruct (seq 0 ((stop + step - 1) / step) !! j) as [y|] eqn:E; [|done].
  apply lookup_seq in E as [-> _]. simpl. by intros [= <-].
Qed.

Lemma range_step_length stop step :
  length (Py.range_step stop step) = ((stop + step - 1) / step)%nat.
Proof. unfold Py.range_step. by rewrite length_fmap, length_seq. Qed.

Lemma length_slice {A} i n (l : list A) :
  length (Py.slice i n l) = Nat.min n (length l - i).
Proof. unfold Py.slice. by rewrite length_take, length_drop. Qed.

Lemma crawl_nonempty cfg py env channels batch_size times w :
  channels <> [] ->
  crawl_new_messages_and_bios cfg py env channels batch_size times w
  = foldl (process_batch cfg py env channels batch_size) (start times w)
      (Py.range_step (length channels) batch_size).
Proof. by destruct channels. Qed.

(** C10. In a cycle, when batch [k] starts with the rate-limit flag set
    and holds more than three channels, no fetch, save or checkpoint of
    the cycle concerns a position cut off that batch: the next batch
    starts a whole [batch_size] further. *)
Theorem truncated_channels_skipped (cfg : Config) (py : PyEnv)
    (env : nat -> ChannelEnv) (channels : list string) (batch_size : nat)
    (times : gmap string (option Z)) (w : Storage.World) (k p : nat) (ev : Event) :
  let starts := Py.range_step (length channels) batch_size in
  let i := (k * batch_size)%nat in
  let s := length (Py.slice i batch_size channels) in
  (0 < batch_size)%nat ->
  rate_limit_encountered
    (foldl (process_batch cfg py env channels batch_size) (start times w)
       (take k starts)) = true ->
  (3 < s)%nat ->
  (i + Nat.max 3 (s / 2) <= p < i + s)%nat ->
  ev ∈ trace (crawl_new_messages_and_bios cfg py env channels batch_size times w) ->
  event_pos ev <> Some p.
Proof.
  intros starts i s Hbs Hflag Hs Hp Hev Hpos.
  assert (Hsl : s = Nat.min batch_size (length channels - i)) by apply length_slice.
  assert (Hk : (k < length starts)%nat).
  { subst starts. rewrite range_step_length.
    apply (Nat.lt_le_trans _ (S k)); [lia|].
    apply Nat.div_le_lower_bound; [lia|]. fold i. lia. }
  destruct (lookup_lt_is_Some_2 starts k Hk) as [x Hx].
  pose proof (range_step_lookup _ _ _ _ Hx) as ->. fold i in Hx.
  assert (Hne : channels <> []).
  { intros E. rewrite E in Hsl. simpl in Hsl. lia. }
  rewrite (crawl_nonempty cfg py env channels batch_size times w Hne) in Hev.
  fold starts in Hev.
  rewrite <- (take_drop_middle starts k i Hx) in Hev.
  rewrite foldl_app in Hev. simpl in Hev.
  set (stk := foldl (process_batch cfg py env channels batch_size) (start times w)
                (take k starts)) in *.
  destruct (batches_extend cfg py env channels batch_size (take k starts)
              (start times w)) as (m1 & E1 & H1).
  fold stk in E1. simpl in E1.
  destruct (process_batch_extends cfg py env channels batch_size stk i)
    as (m2 & E2 & H2).
  destruct (batches_extend cfg py env channels batch_size (drop (S k) starts)
              (process_batch cfg py env channels batch_size stk i))
    as (m3 & E3 & H3).
  rewrite E3, E2, E1 in Hev.
  apply elem_of_app in Hev as [Hev|Hev]; [apply elem_of_app in Hev as [Hev|Hev]|].
  - destruct (H1 ev p Hev Hpos) as (j & Hj & ?).
    apply elem_of_take in Hj as (n & Hn & ?).
    apply range_step_lookup in Hn as ->.
    assert (Hm : (S n * batch_size <= k * batch_size)%nat)
      by (apply Nat.mul_le_mono_r; lia).
    rewrite Nat.mul_succ_l in Hm. unfold i in Hp. lia.
  - specialize (H2 ev p Hev Hpos). rewrite Hflag in H2.
    unfold prepare_batch in H2. fold s in H2.
    destruct (Nat.ltb_spec 3 s); [|lia]. cbn [andb fst] in H2.
    rewrite length_take in H2. fold s in H2. lia.
  - destruct (H3 ev p Hev Hpos) as (j & Hj & ?).
    apply list_elem_of_lookup in Hj as (n & Hn).
    rewrite lookup_drop in Hn. apply range_step_lookup in Hn as ->.
    assert (Hm : (S k * batch_size <= (S k + n) * batch_size)%nat)
      by (apply Nat.mul_le_mono_r; lia).
    rewrite Nat.mul_succ_l in Hm. unfold i in Hp.
    pose proof (Nat.le_min_l batch_size (length channels - k * batch_size)).
    unfold i in Hsl. lia.
Qed.

Lemma truncated_channels_skipped_witness :
  omap event_pos
    (trace (crawl_new_messages_and_bios (local_config 0) sample_py limited_env
              twenty_channels 10 ∅ fresh_world))
  = [0; 1; 2; 3; 4; 5; 6; 7; 8; 9; 10; 11; 12; 13; 14]%nat
  /\ Forall (fun ev => event_pos ev <> Some 17%nat)
       (trace (crawl_new_messages_and_bios (local_config 0) sample_py limited_env
                 twenty_channels 10 ∅ fresh_world)).
Proof.
  split; [vm_compute; reflexivity|].
  apply Forall_forall. intros ev Hev.
  apply (truncated_channels_skipped (local_config 0) sample_py limited_env
           twenty_channels 10 ∅ fresh_world 1 17 ev).
  - lia.
  - vm_compute. reflexivity.
  - vm_compute. lia.
  - vm_compute. lia.
  - exact Hev.
Defined.

End Truncation.

(** ** Retention of snapshot files *)

Section StringOrder.

Lemma ascii_compare_lt a b : Ascii.compare a b = Lt <-> (N_of_ascii a < N_of_ascii b)%N.
Proof. unfold Ascii.compare. apply N.compare_lt_iff. Qed.

Lemma ascii_compare_refl a : Ascii.compare a a = Eq.
Proof. unfold Ascii.compare. apply N.compare_refl. Qed.

Lemma string_compare_refl s : String.compare s s = Eq.
Proof. induction s as [|a s IH]; simpl; [done|]. by rewrite ascii_compare_refl. Qed.

(** [compare] is transitive on [Lt]. *)
Lemma string_compare_lt_trans s1 s2 s3 :
  String.compare s1 s2 = Lt -> String.compare s2 s3 = Lt -> String.compare s1 s3 = Lt.
Proof.
  revert s2 s3. induction s1 as [|a s1 IH]; intros [|b s2] [|c s3]; simpl; try done.
  destruct (Ascii.compare a b) eqn:Eab; [|  |done].
  - apply Ascii.compare_eq_iff in Eab as ->.
    destruct (Ascii.compare b c); [apply IH|done|done].
  - intros _. destruct (Ascii.compare b c) eqn:Ebc; [| |done].
    + apply Ascii.compare_eq_iff in Ebc as <-. by rewrite Eab.
    + intros _.
      pose proof (proj1 (ascii_compare_lt a b) Eab).
      pose proof (proj1 (ascii_compare_lt b c) Ebc).
      assert (E : Ascii.compare a c = Lt) by (apply ascii_compare_lt; lia).
      by rewrite E.
Qed.

Lemma str_lt_compare a b : str_lt a b <-> String.compare a b = Lt.
Proof. unfold str_lt, String.ltb. by destruct (String.compare a b). Qed.

Lemma str_le_compare a b : Py.str_le a b <-> String.compare a b <> Gt.
Proof. unfold Py.str_le, String.leb. by destruct (String.compare a b). Qed.

Lemma str_le_lt_eq a b : Py.str_le a b <-> str_lt a b \/ a = b.
Proof.
  rewrite str_le_compare, str_lt_compare. split.
  - destruct (String.compare a b) eqn:E; [|by left|done].
    right. by apply String.compare_eq_iff.
  - intros [->| ->]; [done|]. by rewrite string_compare_refl.
Qed.


Lemma str_lt_trans a b c : str_lt a b -> str_lt b c -> str_lt a c.
Proof. rewrite !str_lt_compare. apply string_compare_lt_trans. Qed.

#[global] Instance str_le_trans : Transitive Py.str_le.
Proof.
  intros a b c. rewrite !str_le_lt_eq.
  intros [H1| ->] [H2| ->]; eauto using str_lt_trans.
Qed.

#[global] Instance str_le_total : Total Py.str_le.
Proof. intros a b. apply String.leb_total. Qed.

#[global] Instance str_le_antisym : AntiSymm (=) Py.str_le.
Proof. intros a b. apply String.leb_antisym. Qed.



Lemma sorted_perm l : Py.sorted l ≡ₚ l.
Proof. apply merge_sort_Permutation. Qed.

Lemma elem_of_sorted l x : x ∈ Py.sorted l <-> x ∈ l.
Proof. by rewrite sorted_perm. Qed.



End StringOrder.

Section Listing.
Import Storage Handlers.


Lemma elem_of_listdir d w n : n ∈ listdir d w <-> is_Some (files w !! (d, n)).
Proof.
  unfold listdir. rewrite list_elem_of_omap. split.
  - intros ([d' n'] & Hin & E). simpl in E.
    destruct (decide (d' = d)) as [->|]; [|done]. injection E as ->.
    apply list_elem_of_fmap in Hin as ([p v] & Ep & Hin). simpl in Ep. subst p.
    apply elem_of_map_to_list in Hin. by eexists.
  - intros [v Hv]. exists (d, n). split.
    + apply list_elem_of_fmap. exists ((d, n), v). split; [done|].
      by apply elem_of_map_to_list.
    + simpl. by rewrite decide_True.
Qed.


Lemma elem_of_json_files d w n :
  n ∈ json_files d w <->
  Py.endswith ".json" n = true /\ is_Some (files w !! (d, n)).
Proof.
  unfold json_files. rewrite list_elem_of_filter, elem_of_listdir. tauto.
Qed.




End Listing.

Section Cleanup.
Import Storage Handlers.

Lemma files_Hybrid_delete p w : files (Hybrid_delete p w) = delete p (files w).
Proof.
  unfold Hybrid_delete, Kafka_delete, Local_delete, exists_file. simpl.
  case_bool_decide as Hex; simpl; [done|].
  symmetry. apply delete_id. destruct (files w !! p) eqn:E; [|done].
  exfalso. apply Hex. by eexists.
Qed.

Lemma dirs_Hybrid_delete p w : dirs (Hybrid_delete p w) = dirs w.
Proof.
  unfold Hybrid_delete, Kafka_delete, Local_delete. simpl.
  by destruct (exists_file p w).
Qed.






End Cleanup.

Section SaveRetention.
Import Storage Handlers.

(** *** The broker client never touches the directories *)

Lemma dirs_delivery_report r k w : dirs (delivery_report r k w) = dirs w.
Proof.
  unfold delivery_report. destruct r; destruct (Py.dict_get k (pending w)); try done.
  simpl. by destruct (exists_file p w).
Qed.

Lemma dirs_serve rs q w : dirs (serve rs q w).2 = dirs w.
Proof.
  revert q w. induction rs as [|r rs IH]; intros q w; simpl; [done|].
  destruct q as [|k q]; simpl; [done|]. by rewrite IH, dirs_delivery_report.
Qed.

Lemma dirs_flush rs w : dirs (flush rs w) = dirs w.
Proof.
  unfold flush. pose proof (dirs_serve rs (in_flight (kafka w)) w) as H.
  by destruct (serve rs (in_flight (kafka w)) w).
Qed.

Lemma dirs_send_chunk py p w c : dirs (send_chunk py p w c) = dirs w.
Proof.
  unfold send_chunk.
  assert (H : forall k (l : list Msg) w0,
             dirs (foldl (fun w1 _ => produce k w1) w0 l) = dirs w0).
  { intros k l. induction l as [|x l IH]; intros w0; simpl; [done|]. by rewrite IH. }
  by rewrite H.
Qed.

Lemma dirs_foldl_send_chunk py p w cs :
  dirs (foldl (send_chunk py p) w cs) = dirs w.
Proof.
  revert w. induction cs as [|c cs IH]; intros w; simpl; [done|].
  by rewrite IH, dirs_send_chunk.
Qed.

Lemma dirs_send cfg py d p e w : dirs (send cfg py d p e w).2 = dirs w.
Proof.
  unfold send. destruct (USE_KAFKA cfg); simpl; [|done].
  assert (H : exists b w1, (if producer (kafka w) then (true, w)
                            else init_producer cfg e w) = (b, w1)
                           /\ dirs w1 = dirs w).
  { destruct (producer (kafka w)); [by exists true, w|].
    unfold init_producer. destruct (USE_KAFKA cfg); [|by eexists _, _].
    destruct (init_ok e); by eexists _, _. }
  destruct H as (b & w1 & -> & <-).
  destruct b; simpl; [|done].
  destruct d as [l|m].
  - destruct (produce_ok e || bool_decide (l = [])); simpl; [|done].
    by rewrite dirs_flush, dirs_foldl_send_chunk.
  - destruct (produce_ok e); simpl; [|done]. by rewrite dirs_flush.
Qed.

Lemma dirs_Hybrid_save cfg py d p e w :
  dirs (Hybrid_save cfg py d p e w).2 = {[p.1]} ∪ dirs w.
Proof.
  unfold Hybrid_save. destruct (USE_KAFKA cfg); [|done]. by rewrite dirs_send.
Qed.

(** *** One save *)


Lemma exists_dir_written cfg py channel messages e w :
  exists_dir (channel_dir cfg channel) (written cfg py channel messages e w) = true.
Proof.
  unfold written, exists_dir. apply bool_decide_eq_true.
  destruct (negb _); rewrite ?dirs_Hybrid_save; simpl; set_solver.
Qed.


End SaveRetention.

Section LocalRetention.
Import Storage Handlers.

Lemma string_length_app (a b : string) :
  String.length (a ++ b) = (String.length a + String.length b)%nat.
Proof. induction a as [|c a IH]; simpl; [done|]. by rewrite IH. Qed.

Lemma join_neq base c : c <> "" -> Py.join base c <> base.
Proof.
  intros Hc. unfold Py.join. destruct (String.eqb_spec c ""); [done|].
  intros E. apply (f_equal String.length) in E.
  rewrite !string_length_app in E. simpl in E. lia.
Qed.

Lemma own_directory_apart cfg channel :
  own_directory channel -> channel_dir cfg channel <> OUTPUT_DIR cfg.
Proof. intros [Hc _]. by apply join_neq. Qed.






End LocalRetention.

Section Retention.
Import Storage Handlers.






End Retention.


(** * Further properties of the code *)

(** ** Storage strategies *)

Section StorageMore.
Import Storage.

Lemma local_load_save_other d p q w :
  q <> p -> Local_load q (Local_save d p w) = Local_load q w.
Proof. intros Hne. unfold Local_load, Local_save. simpl. by rewrite lookup_insert_ne. Qed.

(** X1. With the broker off, a save through the hybrid strategy reports
    success, a load of the same path returns the saved value, and the
    loads of all other paths are as before. *)
Theorem hybrid_round_trip (cfg : Config) (py : PyEnv) (d : data) (p : path)
    (e : SendEnv) (w : World) :
  USE_KAFKA cfg = false ->
  (Hybrid_save cfg py d p e w).1 = true /\
  Hybrid_load p (Hybrid_save cfg py d p e w).2 = Some d /\
  (forall q, q <> p ->
     Hybrid_load q (Hybrid_save cfg py d p e w).2 = Hybrid_load q w) /\
  kafka (Hybrid_save cfg py d p e w).2 = kafka w.
Proof.
  intros HK. unfold Hybrid_save, Hybrid_load. rewrite HK. simpl.
  repeat split.
  - unfold Local_load, Local_save. simpl. by rewrite lookup_insert_eq.
  - intros q Hne. by apply local_load_save_other.
Qed.

Lemma hybrid_round_trip_witness :
  Hybrid_load (".", "last_crawled_times.json")
    (Hybrid_save (local_config 0) sample_py (Times {["foo" := Some 150]})
       (".", "last_crawled_times.json") quiet_send fresh_world).2
  = Some (Times {["foo" := Some 150]}).
Proof.
  exact (proj1 (proj2 (hybrid_round_trip (local_config 0) sample_py
           (Times {["foo" := Some 150]}) (".", "last_crawled_times.json")
           quiet_send fresh_world eq_refl))).
Defined.

(** X2. After a delete through the hybrid strategy a load of the path
    finds nothing, the other paths load as before, and deleting a path
    that has no file leaves the disk as it is. *)
Theorem hybrid_delete_then_load (p : path) (w : World) :
  Hybrid_load p (Hybrid_delete p w) = None /\
  (forall q, q <> p -> Hybrid_load q (Hybrid_delete p w) = Hybrid_load q w) /\
  (exists_file p w = false -> files (Hybrid_delete p w) = files w).
Proof.
  unfold Hybrid_load, Local_load. rewrite files_Hybrid_delete. repeat split.
  - by rewrite lookup_delete_eq.
  - intros q Hne. by rewrite lookup_delete_ne.
  - intros Hex. apply delete_id. unfold exists_file in Hex.
    apply bool_decide_eq_false in Hex. destruct (files w !! p) eqn:E; [|done].
    exfalso. apply Hex. by eexists.
Qed.

Lemma remove_first_value_others p (d : list (string * path)) :
  filter (fun kv : string * path => kv.2 <> p) (remove_first_value p d)
  = filter (fun kv : string * path => kv.2 <> p) d.
Proof.
  induction d as [|[k v] d IH]; simpl; [done|].
  destruct (decide (v = p)) as [->|Hne].
  - rewrite filter_cons_False; [done|]. simpl. by intros H.
  - rewrite !filter_cons_True by done. by rewrite IH.
Qed.

Lemma remove_first_value_length p (d : list (string * path)) :
  length (remove_first_value p d)
  = (length d - if bool_decide (p ∈ d.*2) then 1 else 0)%nat.
Proof.
  induction d as [|[k v] d IH]; simpl; [done|].
  destruct (decide (v = p)) as [->|Hne].
  - rewrite bool_decide_eq_true_2 by apply list_elem_of_here. lia.
  - simpl. rewrite IH. destruct (decide (p ∈ d.*2)) as [Hin|Hnin].
    + rewrite !bool_decide_eq_true_2; [|by apply list_elem_of_further|done].
      destruct d; [by apply elem_of_nil in Hin|]. simpl. lia.
    + rewrite !bool_decide_eq_false_2; [lia| |done].
      intros H. apply elem_of_cons in H as [?|?]; [congruence|done].
Qed.

(** X3. [KafkaStorageStrategy.delete] takes at most one entry out of the
    pending deliveries: the entries that track other paths stay, in
    order, and of the entries that track the path exactly one goes (none
    if there is none); the disk is not touched. *)
Theorem kafka_delete_one_entry (p : path) (w : World) :
  filter (fun kv : string * path => kv.2 <> p) (pending (Kafka_delete p w))
  = filter (fun kv : string * path => kv.2 <> p) (pending w) /\
  length (pending (Kafka_delete p w))
  = (length (pending w) - if bool_decide (p ∈ (pending w).*2) then 1 else 0)%nat /\
  files (Kafka_delete p w) = files w.
Proof.
  unfold Kafka_delete. repeat split.
  - apply remove_first_value_others.
  - apply remove_first_value_length.
Qed.

End StorageMore.

(** ** The broker client *)

Section BrokerMore.
Import Storage.

Lemma dict_get_None_keys {V} k (d : list (string * V)) :
  Py.dict_get k d = None <-> k ∉ d.*1.
Proof.
  induction d as [|[k' v] d IH]; simpl.
  - split; [intros _; apply not_elem_of_nil|done].
  - rewrite not_elem_of_cons. destruct (String.eqb_spec k k') as [->|Hne].
    + split; [done|]. by intros [? _].
    + rewrite IH. tauto.
Qed.

Lemma dict_pop_keys {V} k k' (d : list (string * V)) :
  k ∈ (Py.dict_pop k' d).*1 -> k ∈ d.*1.
Proof.
  induction d as [|[k0 v] d IH]; simpl; [done|].
  destruct (String.eqb_spec k' k0) as [->|Hne].
  - intros ?. by apply list_elem_of_further.
  - simpl. rewrite !elem_of_cons. intros [?|?]; [by left|right; auto].
Qed.

Lemma dict_pop_gone {V} k (d : list (string * V)) :
  NoDup d.*1 -> k ∉ (Py.dict_pop k d).*1.
Proof.
  induction d as [|[k0 v] d IH]; simpl; [intros _; apply not_elem_of_nil|].
  intros Hnd. apply NoDup_cons in Hnd as [Hk0 Hnd].
  destruct (String.eqb_spec k k0) as [->|Hne]; [done|].
  simpl. rewrite not_elem_of_cons. split; [done|by apply IH].
Qed.

Lemma dict_pop_NoDup {V} k (d : list (string * V)) :
  NoDup d.*1 -> NoDup (Py.dict_pop k d).*1.
Proof.
  induction d as [|[k0 v] d IH]; simpl; [done|].
  intros Hnd. apply NoDup_cons in Hnd as [Hk0 Hnd].
  destruct (String.eqb_spec k k0) as [->|Hne]; [done|].
  simpl. apply NoDup_cons. split; [|by apply IH].
  intros Hin. by apply dict_pop_keys in Hin.
Qed.

(** A delivery report resolves its key and adds no key. *)
Lemma delivery_report_pending r k w :
  NoDup (pending w).*1 ->
  NoDup (pending (delivery_report r k w)).*1 /\
  (k ∉ (pending (delivery_report r k w)).*1) /\
  (forall k', k' ∉ (pending w).*1 -> k' ∉ (pending (delivery_report r k w)).*1).
Proof.
  intros Hnd.
  assert (E : pending (delivery_report r k w)
              = match Py.dict_get k (pending w) with
                | Some _ => Py.dict_pop k (pending w)
                | None => pending w
                end).
  { unfold delivery_report. destruct r; destruct (Py.dict_get k (pending w)); try done.
    simpl. by destruct (exists_file p w). }
  rewrite E. destruct (Py.dict_get k (pending w)) eqn:G.
  - split; [by apply dict_pop_NoDup|]. split; [by apply dict_pop_gone|].
    intros k' Hk' Hin. by apply dict_pop_keys in Hin.
  - split; [done|]. split; [by apply dict_get_None_keys|done].
Qed.

Lemma serve_resolves rs q w :
  NoDup (pending w).*1 ->
  (length q <= length rs)%nat ->
  (serve rs q w).1 = [] /\
  forall k, (k ∈ q \/ k ∉ (pending w).*1) -> k ∉ (pending (serve rs q w).2).*1.
Proof.
  revert q w. induction rs as [|r rs IH]; intros q w Hnd Hlen.
  - destruct q; [|simpl in Hlen; lia]. simpl. split; [done|].
    intros k [Hk|Hk]; [by apply elem_of_nil in Hk|done].
  - destruct q as [|k0 q]; simpl.
    + split; [done|]. intros k [Hk|Hk]; [by apply elem_of_nil in Hk|done].
    + destruct (delivery_report_pending r k0 w Hnd) as (Hnd' & Hk0 & Hkeep).
      destruct (IH q (delivery_report r k0 w) Hnd') as [Hq Hres];
        [simpl in Hlen; lia|].
      split; [done|]. intros k Hk. apply Hres.
      destruct Hk as [Hk|Hk]; [|right; by apply Hkeep].
      apply elem_of_cons in Hk as [->|Hk]; [by right|by left].
Qed.

(** X4. When a flush serves a delivery report for every message in
    flight, the queue is empty afterwards and none of the keys that were in
    flight is pending any more, whether the delivery was confirmed or
    failed. The pending deliveries are a dictionary: their keys are
    distinct. *)
Theorem flush_resolves_pending (rs : list (option string)) (w : World) (k : string) :
  NoDup (pending w).*1 ->
  (length (in_flight (kafka w)) <= length rs)%nat ->
  k ∈ in_flight (kafka w) ->
  in_flight (kafka (flush rs w)) = [] /\
  Py.dict_get k (pending (flush rs w)) = None.
Proof.
  intros Hnd Hlen Hk.
  destruct (serve_resolves rs (in_flight (kafka w)) w Hnd Hlen) as [Hq Hres].
  unfold flush. destruct (serve rs (in_flight (kafka w)) w) as [q w'] eqn:E.
  simpl in *. subst q. split; [done|].
  apply dict_get_None_keys. apply Hres. by left.
Qed.

Lemma flush_resolves_pending_witness :
  Py.dict_get "batch_0"
    (pending (flush [Some "timed out"; None]
                (mkWorld ∅ ∅ (mkKafkaManager true
                                [("batch_0", ("./output/messages/foo", "a.json"))]
                                ["batch_0"; "batch_0"]))))
  = None.
Proof.
  refine (proj2 (flush_resolves_pending [Some "timed out"; None]
                   (mkWorld ∅ ∅ (mkKafkaManager true
                                   [("batch_0", ("./output/messages/foo", "a.json"))]
                                   ["batch_0"; "batch_0"])) "batch_0" _ _ _)).
  - simpl. apply NoDup_singleton.
  - simpl. lia.
  - apply list_elem_of_here.
Defined.

(** X5. When the broker is enabled but no producer is held and none can
    be built, a save through the hybrid strategy returns [False], the
    local file holds the data, and nothing is registered or queued. *)
Theorem broker_unavailable_keeps_file (cfg : Config) (py : PyEnv) (d : data)
    (p : path) (e : SendEnv) (w : World) :
  USE_KAFKA cfg = true ->
  producer (kafka w) = false ->
  init_ok e = false ->
  (Hybrid_save cfg py d p e w).1 = false /\
  Hybrid_load p (Hybrid_save cfg py d p e w).2 = Some d /\
  pending (Hybrid_save cfg py d p e w).2 = pending w /\
  producer (kafka (Hybrid_save cfg py d p e w).2) = false /\
  in_flight (kafka (Hybrid_save cfg py d p e w).2) = [].
Proof.
  intros HK Hp Hinit. unfold Hybrid_save, send, init_producer. rewrite HK. simpl.
  rewrite Hp, Hinit. simpl. repeat split.
  unfold Hybrid_load, Local_load. simpl. by rewrite lookup_insert_eq.
Qed.

Lemma broker_unavailable_keeps_file_witness :
  Hybrid_load ("./output/messages/foo", "a.json")
    (Hybrid_save (kafka_config 0) sample_py (Messages [post 1 50])
       ("./output/messages/foo", "a.json") (mkSendEnv false true [])
       (mkWorld ∅ ∅ (mkKafkaManager false [] []))).2
  = Some (Messages [post 1 50]).
Proof.
  exact (proj1 (proj2 (broker_unavailable_keeps_file (kafka_config 0) sample_py
           (Messages [post 1 50]) ("./output/messages/foo", "a.json")
           (mkSendEnv false true []) (mkWorld ∅ ∅ (mkKafkaManager false [] []))
           eq_refl eq_refl eq_refl))).
Defined.

(** X6. When [produce] raises for a non-empty batch, the save returns
    [False], the local file holds the data and the producer is dropped,
    but the file stays registered under the key of the batch: [send]
    tracks the file before it produces and the handler does not undo it. *)
Theorem produce_failure_keeps_entry (cfg : Config) (py : PyEnv) (l : list Msg)
    (p : path) (e : SendEnv) (w : World) :
  USE_KAFKA cfg = true ->
  producer (kafka w) = true ->
  produce_ok e = false ->
  l <> [] ->
  (Hybrid_save cfg py (Messages l) p e w).1 = false /\
  Hybrid_load p (Hybrid_save cfg py (Messages l) p e w).2 = Some (Messages l) /\
  producer (kafka (Hybrid_save cfg py (Messages l) p e w).2) = false /\
  Py.dict_get (batch_key py (Py.slice 0 1000 l))
    (pending (Hybrid_save cfg py (Messages l) p e w).2) = Some p.
Proof.
  intros HK Hp Hok Hl. unfold Hybrid_save, send. rewrite HK. cbn [negb].
  change (producer (kafka (Local_save (Messages l) p w))) with (producer (kafka w)).
  rewrite Hp, Hok. cbn [negb orb].
  rewrite bool_decide_eq_false_2 by done. cbn [fst snd].
  repeat split.
  - unfold Hybrid_load, Local_load. simpl. by rewrite lookup_insert_eq.
  - unfold drop_producer, track_file_for_deletion. simpl. apply dict_get_set_eq.
Qed.

Lemma produce_failure_keeps_entry_witness :
  Py.dict_get "batch_0"
    (pending (Hybrid_save (kafka_config 0) sample_py (Messages [post 1 50])
                ("./output/messages/foo", "a.json") (mkSendEnv true false [])
                fresh_world).2)
  = Some ("./output/messages/foo", "a.json").
Proof.
  refine (proj2 (proj2 (proj2 (produce_failure_keeps_entry (kafka_config 0)
           sample_py [post 1 50] ("./output/messages/foo", "a.json")
           (mkSendEnv true false []) fresh_world eq_refl eq_refl eq_refl _)))).
  discriminate.
Defined.

End BrokerMore.

(** ** The message handler *)

Section HandlerMore.
Import Storage Handlers.

Lemma lookup_after_deletes_frame d l w d' n :
  (d' <> d \/ n ∉ l) ->
  files (foldl (fun w f => Hybrid_delete (d, f) w) w l) !! (d', n)
  = files w !! (d', n).
Proof.
  revert w. induction l as [|f l IH]; intros w H; [done|].
  cbn [foldl]. rewrite IH, files_Hybrid_delete.
  - apply lookup_delete_ne. intros [= -> ->]. destruct H as [?|H]; [done|].
    apply H, list_elem_of_here.
  - destruct H as [?|H]; [by left|right]. intros Hin. apply H.
    by apply list_elem_of_further.
Qed.

Lemma cleanup_lookup_frame cfg channel w d n :
  (d <> channel_dir cfg channel \/ Py.endswith ".json" n = false) ->
  files (cleanup cfg channel w) !! (d, n) = files w !! (d, n).
Proof.
  intros H. unfold cleanup.
  destruct (_ <=? 0); [done|]. destruct (negb _); [done|].
  destruct (_ >? _); [|done].
  apply lookup_after_deletes_frame.
  destruct H as [?|Hn]; [by left|right].
  intros Hin. apply elem_of_take in Hin as (i & Hi & _).
  apply list_elem_of_lookup_2 in Hi. apply (proj1 (elem_of_sorted _ _)) in Hi.
  apply (proj1 (elem_of_json_files _ _ _)) in Hi as [Hj _]. congruence.
Qed.

Lemma cleanup_keeps_legacy cfg channel w :
  own_directory channel ->
  files (cleanup cfg channel w) !! legacy_file cfg channel
  = files w !! legacy_file cfg channel.
Proof.
  intros Hown. apply cleanup_lookup_frame. left. intros E.
  symmetry in E. by apply own_directory_apart in E.
Qed.

(** X7. For a channel whose name names a directory of its own, [cleanup]
    deletes nothing but [.json] files of that directory: every file of
    another directory (the cumulative file of the channel among them) and
    every file with another suffix is as before; and while the directory
    lists at most [N] such files, or the retention count is not positive,
    the disk is as before. *)
Theorem cleanup_frame (cfg : Config) (channel : string) (w : World) :
  own_directory channel ->
  (forall d n,
     d <> channel_dir cfg channel \/ Py.endswith ".json" n = false ->
     files (cleanup cfg channel w) !! (d, n) = files w !! (d, n)) /\
  files (cleanup cfg channel w) !! legacy_file cfg channel
  = files w !! legacy_file cfg channel /\
  ((CUMULATIVE_JSON_ITERATIONS cfg <= 0 \/
    Z.of_nat (length (json_files (channel_dir cfg channel) w))
    <= CUMULATIVE_JSON_ITERATIONS cfg) ->
   cleanup cfg channel w = w).
Proof.
  intros Hown. split; [|split].
  - intros d n. apply cleanup_lookup_frame.
  - by apply cleanup_keeps_legacy.
  - intros H. unfold cleanup.
    destruct (Z.leb_spec (CUMULATIVE_JSON_ITERATIONS cfg) 0); [done|].
    destruct (negb _); [done|].
    destruct (Z.gtb_spec (Z.of_nat (length (json_files (channel_dir cfg channel) w)))
                (CUMULATIVE_JSON_ITERATIONS cfg)); [lia|done].
Qed.

(** Retention count 1 and two snapshots: the cumulative file stays. *)
Lemma cleanup_frame_witness :
  files (cleanup (local_config 1) "foo"
           (mkWorld {[ ("./output/messages", "foo.json") := Some (Messages [post 1 50]);
                       ("./output/messages/foo", "messages_1.json")
                         := Some (Messages [post 1 50]);
                       ("./output/messages/foo", "messages_2.json")
                         := Some (Messages [post 1 50]) ]}
              {["./output/messages/foo"]} (mkKafkaManager true [] [])))
    !! legacy_file (local_config 1) "foo"
  = Some (Some (Messages [post 1 50])).
Proof.
  assert (Hown : own_directory "foo")
    by (repeat split; (discriminate || reflexivity)).
  rewrite (proj1 (proj2 (cleanup_frame (local_config 1) "foo" _ Hown))).
  vm_compute. reflexivity.
Defined.


Lemma save_written cfg py channel messages e w :
  save cfg py channel messages e w
  = if CUMULATIVE_JSON_ITERATIONS cfg >? 0
    then cleanup cfg channel (written cfg py channel messages e w)
    else written cfg py channel messages e w.
Proof. done. Qed.





Lemma written_snapshots_only cfg py channel messages e w :
  USE_KAFKA cfg = false ->
  CUMULATIVE_JSON_ITERATIONS cfg = 0 ->
  save cfg py channel messages e w = written cfg py channel messages e w /\
  files (written cfg py channel messages e w)
  = <[(channel_dir cfg channel, snapshot_name (now e)) := Some (Messages messages)]>
      (files w) /\
  exists_dir (channel_dir cfg channel) (written cfg py channel messages e w) = true.
Proof.
  intros HK HN. split; [|split].
  - rewrite save_written, HN. done.
  - unfold written, Hybrid_save. rewrite HK, HN. simpl.
    by destruct (exists_dir (channel_dir cfg channel) w).
  - apply exists_dir_written.
Qed.

Lemma legacy_not_snapshot cfg channel timestamp :
  legacy_file cfg channel <> (channel_dir cfg channel, snapshot_name timestamp).
Proof.
  unfold legacy_file, channel_dir. intros [= E1 E2].
  destruct (decide (channel = "")) as [->|Hne]; [discriminate E2|].
  symmetry in E1. by apply join_neq in E1.
Qed.



(** X10. With the broker off and retention count 0, a cumulative file
    with content that is still on disk shadows every snapshot:
    [MessageHandler.save] does not rewrite it, and [MessageHandler.load]
    keeps returning its content, not the list just saved. *)
Theorem stale_cumulative_file_shadows (cfg : Config) (py : PyEnv) (channel : string)
    (messages old : list Msg) (e : SaveEnv) (w : World) :
  USE_KAFKA cfg = false ->
  CUMULATIVE_JSON_ITERATIONS cfg = 0 ->
  files w !! legacy_file cfg channel = Some (Some (Messages old)) ->
  old <> [] ->
  load cfg channel (save cfg py channel messages e w) = Some (Messages old).
Proof.
  intros HK HN Hleg Hold.
  destruct (written_snapshots_only cfg py channel messages e w HK HN)
    as (-> & Hf & _).
  unfold load, exists_file, Hybrid_load, Local_load.
  rewrite Hf, lookup_insert_ne by (intros E; symmetry in E;
                                   by apply legacy_not_snapshot in E).
  rewrite Hleg. rewrite bool_decide_eq_true_2 by (by eexists). simpl.
  by rewrite bool_decide_eq_false_2.
Qed.

Lemma stale_cumulative_file_shadows_witness :
  load (local_config 0) "foo"
    (save (local_config 0) sample_py "foo" [post 1 50; post 2 100]
       (sample_save_env "2024-01-01T00-30-00")
       (mkWorld {[ ("./output/messages", "foo.json") := Some (Messages [post 1 50]) ]}
          ∅ (mkKafkaManager true [] [])))
  = Some (Messages [post 1 50]).
Proof.
  apply (stale_cumulative_file_shadows (local_config 0) sample_py "foo"
           [post 1 50; post 2 100] [post 1 50]
           (sample_save_env "2024-01-01T00-30-00")
           (mkWorld {[ ("./output/messages", "foo.json") := Some (Messages [post 1 50]) ]}
              ∅ (mkKafkaManager true [] []))).
  - reflexivity.
  - reflexivity.
  - vm_compute. reflexivity.
  - discriminate.
Defined.

End HandlerMore.

(** ** The fetcher *)

Section FetcherMore.
Import Network.

Lemma attempts_data_or_error channel retries responses remaining sl :
  let r := attempts channel retries responses remaining sl in
  (error r = None /\ soup (channel_data r) = true) \/
  (error r <> None /\ channel_data r = no_data).
Proof.
  revert sl. induction remaining as [|n IH]; intros sl; simpl; [by right|].
  destruct (responses (retries - S n)%nat) as [c e|ok msgs|e|e|e|e];
    repeat (match goal with |- context [if ?b then _ else _] => destruct b end);
    simpl; auto; by right.
Qed.

(** X11. Whatever the responses and the number of attempts, a fetch
    returns either a parsed page and no error, or an error and the empty
    result: the parsed page is present exactly when the error is absent. *)
Theorem fetch_data_or_error (channel : string) (retries : nat)
    (responses : nat -> Response) :
  (error (fetch_channel_data channel retries responses) = None <->
   soup (channel_data (fetch_channel_data channel retries responses)) = true) /\
  (error (fetch_channel_data channel retries responses) <> None ->
   channel_data (fetch_channel_data channel retries responses) = no_data).
Proof.
  unfold fetch_channel_data.
  destruct (attempts_data_or_error channel retries responses retries [])
    as [[He Hs]|[He Hd]]; simpl in *.
  - split; [by rewrite He, Hs|]. by rewrite He.
  - rewrite Hd. split; [|done]. simpl. split; [done|discriminate].
Qed.

(** The loop passes every retryable response before attempt [k]. *)
Lemma attempts_skip_retryable channel retries responses k remaining sl :
  (k < retries)%nat ->
  (retries - remaining <= k)%nat ->
  (remaining <= retries)%nat ->
  (forall a, (a < k)%nat -> retryable (responses a) = true) ->
  exists sl', attempts channel retries responses remaining sl
              = attempts channel retries responses (retries - k) sl'.
Proof.
  intros Hk. revert sl. induction remaining as [|n IH]; intros sl Hge Hle Hr; [lia|].
  destruct (decide (retries - S n = k)%nat) as [E|Hne].
  - exists sl. f_equal. lia.
  - assert (Ha : (retries - S n < k)%nat) by lia.
    pose proof (Hr _ Ha) as Hra. cbn [attempts].
    assert (Hlast : (retries - S n <? retries - 1)%nat = true)
      by (apply Nat.ltb_lt; lia).
    rewrite Hlast. cbn [negb].
    assert (Hn : (retries - n <= k)%nat) by lia.
    assert (Hn' : (n <= retries)%nat) by lia.
    destruct (responses (retries - S n)%nat) as [c e|ok msgs|e|e|e|e];
      simpl in Hra; try discriminate; try (by apply IH).
    destruct (c =? 404)%nat; [done|]. destruct (c =? 403)%nat; [done|].
    destruct (c =? 429)%nat; [by apply IH|].
    simpl in Hra. apply Nat.ltb_lt in Hra.
    destruct (Nat.leb_spec 500 c); [lia|]. by apply IH.
Qed.

Lemma attempts_at (retries k : nat) :
  (k < retries)%nat -> exists n, (retries - k = S n)%nat /\ (retries - S n = k)%nat.
Proof. intros Hk. exists (retries - k - 1)%nat. lia. Qed.

(** X12. Failures the loop retries (429, connection error, timeout, any
    other exception, an HTTP error status other than 404, 403 and 5xx)
    do not lose the page: when after [k] of them, [k] below the number of
    attempts, a well-formed page arrives, the fetch returns its fragments
    and no error after [k + 1] requests. *)
Theorem fetch_retries_until_page (channel : string) (retries : nat)
    (responses : nat -> Response) (k : nat) (msgs : list Fragment) :
  (k < retries)%nat ->
  (forall a, (a < k)%nat -> retryable (responses a) = true) ->
  responses k = Page true msgs ->
  channel_data (fetch_channel_data channel retries responses) = mkChannelData msgs true /\
  error (fetch_channel_data channel retries responses) = None /\
  requests (fetch_channel_data channel retries responses) = S k.
Proof.
  intros Hk Hr Hpage. unfold fetch_channel_data.
  destruct (attempts_skip_retryable channel retries responses k retries [] Hk)
    as [sl' ->]; [lia|lia|done|].
  destruct (attempts_at retries k Hk) as (n & -> & En).
  cbn [attempts]. rewrite En, Hpage. done.
Qed.

Lemma fetch_retries_until_page_witness :
  channel_data (fetch_channel_data "foo" 2
                  (fun a => if (a =? 0)%nat then Timeout "read timed out"
                            else Page true [ExtractsNone]))
  = mkChannelData [ExtractsNone] true.
Proof.
  refine (proj1 (fetch_retries_until_page "foo" 2
                   (fun a => if (a =? 0)%nat then Timeout "read timed out"
                             else Page true [ExtractsNone]) 1 [ExtractsNone] _ _ _)).
  - lia.
  - intros a Ha. assert (a = 0)%nat as -> by lia. reflexivity.
  - reflexivity.
Defined.

(** X13. The first response the loop does not retry ends the fetch at
    once: after [k] retryable failures an answer 404, 403, 5xx, an
    unparsable page or a page of unexpected structure in attempt [k] makes
    the fetch return the empty result with an error after [k + 1]
    requests, whatever later attempts would have brought. *)
Theorem fetch_fails_fast (channel : string) (retries : nat)
    (responses : nat -> Response) (k : nat) :
  (k < retries)%nat ->
  (forall a, (a < k)%nat -> retryable (responses a) = true) ->
  retryable (responses k) = false ->
  (forall msgs, responses k <> Page true msgs) ->
  channel_data (fetch_channel_data channel retries responses) = no_data /\
  error (fetch_channel_data channel retries responses) <> None /\
  requests (fetch_channel_data channel retries responses) = S k.
Proof.
  intros Hk Hr Hnot Hpage. unfold fetch_channel_data.
  destruct (attempts_skip_retryable channel retries responses k retries [] Hk)
    as [sl' ->]; [lia|lia|done|].
  destruct (attempts_at retries k Hk) as (n & -> & En).
  cbn [attempts]. rewrite En.
  destruct (responses k) as [c e|ok msgs|e|e|e|e]; simpl in Hnot; try discriminate.
  - destruct (c =? 404)%nat; [done|]. destruct (c =? 403)%nat; [done|].
    destruct (c =? 429)%nat; [done|]. simpl in Hnot.
    apply Nat.ltb_ge in Hnot. destruct (Nat.leb_spec 500 c); [done|lia].
  - destruct ok; [by destruct (Hpage msgs)|done].
  - done.
Qed.

Lemma fetch_fails_fast_witness :
  requests (fetch_channel_data "foo" 2
              (fun a => if (a =? 0)%nat then HTTPError 503 "Service Unavailable"
                        else Page true [ExtractsNone]))
  = 1%nat.
Proof.
  refine (proj2 (proj2 (fetch_fails_fast "foo" 2
                   (fun a => if (a =? 0)%nat then HTTPError 503 "Service Unavailable"
                             else Page true [ExtractsNone]) 0 _ _ _ _))).
  - lia.
  - intros a Ha. lia.
  - reflexivity.
  - intros msgs. discriminate.
Defined.

Lemma attempts_all_connection_errors channel retries responses e_last remaining sl :
  (0 < remaining <= retries)%nat ->
  (forall a, (a < retries)%nat -> exists e, responses a = ConnectionError e) ->
  responses (retries - 1)%nat = ConnectionError e_last ->
  attempts channel retries responses remaining sl
  = mkFetchResult no_data (Some ("Connection error: " ++ e_last)) retries
      (sl ++ ((fun a => 2 ^ a * 5)%nat <$> seq (retries - remaining) (remaining - 1)))%list.
Proof.
  intros Hrem Hall Hlast. revert sl Hrem.
  induction remaining as [|n IH]; intros sl Hrem; [lia|].
  cbn [attempts].
  destruct (Hall (retries - S n)%nat) as [e He]; [lia|].
  destruct (decide (n = 0%nat)) as [->|Hn].
  - replace (retries - 1 <? retries - 1)%nat with false
      by (symmetry; apply Nat.ltb_ge; lia).
    rewrite Hlast. simpl. unfold finish. f_equal; [f_equal; lia|].
    by rewrite app_nil_r.
  - rewrite He.
    replace (retries - S n <? retries - 1)%nat with true
      by (symmetry; apply Nat.ltb_lt; lia).
    cbn [negb]. rewrite IH by lia. f_equal.
    rewrite <- app_assoc. f_equal.
    replace (seq (retries - S n) (S n - 1))
      with ((retries - S n)%nat :: seq (retries - n) (n - 1)).
    + by rewrite fmap_cons.
    + replace (S n - 1)%nat with (S (n - 1)) by lia.
      cbn [seq]. f_equal. f_equal. lia.
Qed.

(** X14. When every attempt ends in a connection error, the fetch makes
    all its attempts, sleeps [5 * 2 ^ a] seconds after attempt [a] except
    after the last one, and returns the empty result with the error of
    the last attempt. *)
Theorem connection_errors_back_off (channel : string) (retries : nat)
    (responses : nat -> Response) (e_last : string) :
  (0 < retries)%nat ->
  (forall a, (a < retries)%nat -> exists e, responses a = ConnectionError e) ->
  responses (retries - 1)%nat = ConnectionError e_last ->
  fetch_channel_data channel retries responses
  = mkFetchResult no_data (Some ("Connection error: " ++ e_last)) retries
      ((fun a => 2 ^ a * 5)%nat <$> seq 0 (retries - 1)).
Proof.
  intros Hpos Hall Hlast. unfold fetch_channel_data.
  rewrite (attempts_all_connection_errors channel retries responses e_last) by (done || lia).
  by rewrite Nat.sub_diag.
Qed.

Lemma connection_errors_back_off_witness :
  fetch_channel_data "foo" 3 (fun _ => ConnectionError "refused")
  = mkFetchResult no_data (Some "Connection error: refused") 3 [5; 10]%nat.
Proof.
  apply (connection_errors_back_off "foo" 3 (fun _ => ConnectionError "refused")
           "refused").
  - lia.
  - intros a _. by exists "refused".
  - reflexivity.
Defined.

End FetcherMore.

(** ** The crawl cycle *)

Section CycleMore.
Import Storage Crawler.

Lemma positioned_lookup i batch pc :
  pc ∈ positioned i batch -> exists j, pc.1 = (i + j)%nat /\ batch !! j = Some pc.2.
Proof.
  revert i. induction batch as [|c batch IH]; intros i Hin.
  - by apply elem_of_nil in Hin.
  - rewrite positioned_cons in Hin. apply elem_of_cons in Hin as [->|Hin].
    + exists 0%nat. split; [simpl; lia|done].
    + destruct (IH _ Hin) as (j & E & Hj). exists (S j). split; [lia|done].
Qed.

Lemma kept_batch_lookup (channels : list string) batch_size flag i j c :
  (prepare_batch flag (Py.slice i batch_size channels)).1 !! j = Some c ->
  channels !! (i + j)%nat = Some c.
Proof.
  unfold prepare_batch, Py.slice. intros H.
  assert (H' : take batch_size (drop i channels) !! j = Some c).
  { destruct (flag && _); simpl in H; [|done].
    apply lookup_take_Some in H as [H _]. done. }
  apply lookup_take_Some in H' as [H' _]. by rewrite lookup_drop in H'.
Qed.

(** A property of the state that the steps of a cycle keep is kept by the
    cycle; only channels at their positions in the list are processed. *)
Lemma crawl_invariant (I : State -> Prop) cfg py env channels batch_size times w :
  (forall delay st, I st -> I (clear_flag delay st)) ->
  (forall n st, I st -> I (log (Sleep n) st)) ->
  (forall pos c sb, channels !! pos = Some c -> I sb.1 ->
                    I (process_channel cfg py pos c (env pos) sb).1) ->
  I (start times w) ->
  I (crawl_new_messages_and_bios cfg py env channels batch_size times w).
Proof.
  intros Hclear Hsleep Hchan H0. unfold crawl_new_messages_and_bios.
  assert (Hfold : forall starts st, I st ->
            I (foldl (process_batch cfg py env channels batch_size) st starts)).
  { induction starts as [|i starts IH]; intros st Hst; [done|].
    simpl. apply IH. unfold process_batch.
    set (bd := prepare_batch _ _).
    assert (Hb : forall pc, pc ∈ positioned i bd.1 -> channels !! pc.1 = Some pc.2).
    { intros pc Hpc. apply positioned_lookup in Hpc as (j & -> & Hj).
      by apply kept_batch_lookup in Hj. }
    assert (Hcs : I (process_channels cfg py env i bd.1 (clear_flag bd.2 st)).1).
    { unfold process_channels.
      assert (Hi : I (clear_flag bd.2 st, 0%nat).1) by (by apply Hclear).
      revert Hb Hi. generalize (clear_flag bd.2 st, 0%nat).
      generalize (positioned i bd.1).
      induction l as [|pc l IHl]; intros sb Hb Hi; [done|].
      simpl. apply IHl.
      - intros pc' Hpc'. apply Hb. by apply list_elem_of_further.
      - apply Hchan; [|done]. apply Hb, list_elem_of_here. }
    destruct (process_channels cfg py env i bd.1 (clear_flag bd.2 st)) as [st' bf].
    unfold adaptive_delay. destruct (_ <? _)%nat; [by apply Hsleep|done]. }
  destruct channels; [done|]. by apply Hfold.
Qed.

Lemma times_save_new_other cfg py pos channel e old acc st c :
  c <> channel ->
  last_crawled_times (save_new cfg py pos channel e old acc st) !! c
  = last_crawled_times st !! c.
Proof.
  intros Hne. unfold save_new. destruct (new_messages acc); [done|].
  destruct old; [|done]. destruct (save_ok e); [|done].
  destruct (latest_time acc); [|done]. simpl. by rewrite lookup_insert_ne.
Qed.

Lemma times_process_channel_other cfg py pos channel e sb c :
  c <> channel ->
  last_crawled_times (process_channel cfg py pos channel e sb).1 !! c
  = last_crawled_times sb.1 !! c.
Proof.
  intros Hne. destruct sb as [st bf]. unfold process_channel.
  destruct (existing _) as [old ids].
  destruct (bool_decide _ || negb _); simpl; [done|].
  by rewrite times_save_new_other.
Qed.

(** X15. A cycle changes no checkpoint but those of the channels of its
    list: the entry of every other channel, present or absent, is after
    the cycle what it was before. *)
Theorem unlisted_checkpoints_untouched (cfg : Config) (py : PyEnv)
    (env : nat -> ChannelEnv) (channels : list string) (batch_size : nat)
    (times : gmap string (option Z)) (w : World) (c : string) :
  c ∉ channels ->
  last_crawled_times
    (crawl_new_messages_and_bios cfg py env channels batch_size times w) !! c
  = times !! c.
Proof.
  intros Hc.
  apply (crawl_invariant (fun st => last_crawled_times st !! c = times !! c));
    try done.
  intros pos c' sb Hpos Hsb. rewrite times_process_channel_other; [done|].
  intros ->. apply Hc. by apply list_elem_of_lookup_2 in Hpos.
Qed.

Lemma unlisted_checkpoints_untouched_witness :
  last_crawled_times
    (crawl_new_messages_and_bios (local_config 0) sample_py scenario_env
       ["foo"] 10 {["foo" := Some 100; "bar" := Some 7]} stored_world) !! "bar"
  = Some (Some 7).
Proof.
  rewrite (unlisted_checkpoints_untouched (local_config 0) sample_py scenario_env
             ["foo"] 10 {["foo" := Some 100; "bar" := Some 7]} stored_world "bar").
  - vm_compute. reflexivity.
  - intros H. apply list_elem_of_singleton in H. discriminate H.
Defined.

Lemma listed_save_new channels cfg py pos channel e old acc st :
  channels !! pos = Some channel ->
  Forall (listed channels) (trace st) ->
  Forall (listed channels) (trace (save_new cfg py pos channel e old acc st)).
Proof.
  intros Hpos Htr. unfold save_new. destruct (new_messages acc); [done|].
  destruct old; [|done]. destruct (save_ok e); [|done].
  destruct (latest_time acc); simpl; rewrite ?Forall_app; repeat split; try done;
    by repeat constructor.
Qed.

(** X16. Every fetch, save and checkpoint of a cycle concerns a channel of
    the list, named with its own position: the cycle never touches a
    position outside the list or a channel that is not at that position. *)
Theorem events_are_listed (cfg : Config) (py : PyEnv) (env : nat -> ChannelEnv)
    (channels : list string) (batch_size : nat)
    (times : gmap string (option Z)) (w : World) (ev : Event) :
  ev ∈ trace (crawl_new_messages_and_bios cfg py env channels batch_size times w) ->
  listed channels ev.
Proof.
  revert ev. apply Forall_forall.
  apply (crawl_invariant (fun st => Forall (listed channels) (trace st))).
  - intros delay st Hst. simpl. apply Forall_app. split; [done|].
    apply Forall_fmap. by apply Forall_true.
  - intros n st Hst. simpl. apply Forall_app. split; [done|by repeat constructor].
  - intros pos c [st bf] Hpos Hst. simpl in Hst. unfold process_channel.
    destruct (existing _) as [old ids].
    assert (Hf : Forall (listed channels) (trace st ++ [Fetch pos c])).
    { apply Forall_app. split; [done|by repeat constructor]. }
    destruct (bool_decide _ || negb _); simpl; [done|].
    apply Forall_app. split; [|by repeat constructor].
    by apply listed_save_new.
  - constructor.
Qed.

Lemma events_are_listed_witness :
  listed ["foo"] (Checkpoint 0 "foo" 150).
Proof.
  apply (events_are_listed (local_config 0) sample_py scenario_env ["foo"] 10
           {["foo" := Some 100]} stored_world).
  rewrite scenario_B_cycle. do 2 apply list_elem_of_further. apply list_elem_of_here.
Defined.

(** X17. When the fetch of every channel of the list brings nothing to
    process, the cycle leaves the disk, the broker client and the
    checkpoints as they were and counts no channel as crawled: nothing is
    saved without fetched data. *)
Theorem failed_cycle_changes_nothing (cfg : Config) (py : PyEnv)
    (env : nat -> ChannelEnv) (channels : list string) (batch_size : nat)
    (times : gmap string (option Z)) (w : World) :
  (forall pos c, channels !! pos = Some c -> fetch_fails (env pos) c = true) ->
  Crawler.world (crawl_new_messages_and_bios cfg py env channels batch_size times w) = w /\
  last_crawled_times
    (crawl_new_messages_and_bios cfg py env channels batch_size times w) = times /\
  crawled_channels
    (crawl_new_messages_and_bios cfg py env channels batch_size times w) = 0%nat.
Proof.
  intros Hfail.
  apply (crawl_invariant
           (fun st => Crawler.world st = w /\ last_crawled_times st = times /\
                      crawled_channels st = 0%nat)); try done.
  intros pos c [st bf] Hpos Hst. simpl in Hst.
  specialize (Hfail pos c Hpos). unfold fetch_fails in Hfail.
  unfold process_channel. destruct (existing _) as [old ids].
  rewrite Hfail. simpl. done.
Qed.

Lemma failed_cycle_changes_nothing_witness :
  Crawler.world (crawl_new_messages_and_bios (local_config 0) sample_py limited_env
                   twenty_channels 10 {["c1" := Some 5]} stored_world)
  = stored_world.
Proof.
  refine (proj1 (failed_cycle_changes_nothing (local_config 0) sample_py limited_env
                   twenty_channels 10 {["c1" := Some 5]} stored_world _)).
  intros pos c _. unfold fetch_fails, limited_env. simpl.
  by destruct (pos =? 0)%nat.
Defined.

Lemma fetches_app tr1 tr2 : fetches (tr1 ++ tr2) = (fetches tr1 ++ fetches tr2)%list.
Proof. apply omap_app. Qed.

Lemma fetches_save_new cfg py pos channel e old acc st :
  fetches (trace (save_new cfg py pos channel e old acc st)) = fetches (trace st).
Proof.
  unfold save_new. destruct (new_messages acc); [done|].
  destruct old; [|done]. destruct (save_ok e); [|done].
  destruct (latest_time acc); simpl; rewrite !fetches_app; simpl;
    by rewrite ?app_nil_r.
Qed.

Lemma fetches_process_channel cfg py pos channel e sb :
  fetches (trace (process_channel cfg py pos channel e sb).1)
  = (fetches (trace sb.1) ++ [pos])%list.
Proof.
  destruct sb as [st bf]. unfold process_channel.
  destruct (existing _) as [old ids].
  destruct (bool_decide _ || negb _); simpl.
  - by rewrite fetches_app.
  - rewrite fetches_app, fetches_save_new. simpl.
    by rewrite fetches_app, app_nil_r.
Qed.

Lemma fetches_process_channels cfg py env i batch st :
  fetches (trace (process_channels cfg py env i batch st).1)
  = (fetches (trace st) ++ seq i (length batch))%list.
Proof.
  unfold process_channels.
  change (trace st) with (trace (st, 0%nat).1). generalize (st, 0%nat).
  revert i. induction batch as [|c batch IH]; intros i sb.
  - simpl. by rewrite app_nil_r.
  - rewrite positioned_cons. simpl. rewrite IH, fetches_process_channel.
    by rewrite <- app_assoc.
Qed.

Lemma quiet_batch cfg py env channels batch_size st i :
  rate_limit_encountered st = false ->
  (forall pos c, channels !! pos = Some c -> rate_limited (env pos) c = false) ->
  rate_limit_encountered (process_batch cfg py env channels batch_size st i) = false /\
  fetches (trace (process_batch cfg py env channels batch_size st i))
  = (fetches (trace st) ++ seq i (length (Py.slice i batch_size channels)))%list.
Proof.
  intros Hflag Hquiet. split.
  - rewrite flag_process_batch. unfold observed_rate_limit.
    destruct (existsb _ _) eqn:E; [|done].
    apply existsb_exists in E as (pc & Hpc & Hlim).
    apply list_elem_of_In, positioned_lookup in Hpc as (j & Hj & Hc).
    apply kept_batch_lookup in Hc. rewrite <- Hj in Hc.
    by rewrite (Hquiet _ _ Hc) in Hlim.
  - unfold process_batch, prepare_batch. rewrite Hflag. simpl.
    pose proof (fetches_process_channels cfg py env i
                  (Py.slice i batch_size channels) (clear_flag [] st)) as H.
    destruct (process_channels cfg py env i (Py.slice i batch_size channels)
                (clear_flag [] st)) as [st' bf].
    simpl in H. rewrite app_nil_r in H. rewrite <- H.
    unfold adaptive_delay. destruct (_ <? _)%nat; [|done].
    simpl. by rewrite fetches_app, app_nil_r.
Qed.

Lemma quiet_batches cfg py env channels batch_size m a st :
  (0 < batch_size)%nat ->
  rate_limit_encountered st = false ->
  (forall pos c, channels !! pos = Some c -> rate_limited (env pos) c = false) ->
  fetches (trace (foldl (process_batch cfg py env channels batch_size) st
                    ((fun k => k * batch_size)%nat <$> seq a m)))
  = (fetches (trace st)
     ++ seq (a * batch_size)
          (Nat.min (length channels) ((a + m) * batch_size) - a * batch_size))%list.
Proof.
  intros Hbs Hflag Hquiet. revert a st Hflag.
  induction m as [|m IH]; intros a st Hflag.
  - simpl. replace (Nat.min _ _ - _)%nat with 0%nat by lia. by rewrite app_nil_r.
  - cbn [seq fmap list_fmap foldl].
    destruct (quiet_batch cfg py env channels batch_size st (a * batch_size)
                Hflag Hquiet) as [Hflag1 Hf1].
    change (list_fmap nat nat (fun k => (k * batch_size)%nat) (seq (S a) m))
      with ((fun k => (k * batch_size)%nat) <$> seq (S a) m).
    rewrite (IH (S a) _ Hflag1), Hf1, <- app_assoc. f_equal.
    rewrite length_slice.
    replace (a + S m)%nat with (S a + m)%nat by lia.
    assert (Hm : (S a * batch_size <= (S a + m) * batch_size)%nat)
      by (apply Nat.mul_le_mono_r; lia).
    rewrite Nat.mul_succ_l in *.
    set (X := (a * batch_size)%nat) in *.
    set (Y := ((S a + m) * batch_size)%nat) in *.
    set (n := length channels) in *.
    destruct (Nat.le_gt_cases n (X + batch_size)).
    + replace (Nat.min n Y - (X + batch_size))%nat with 0%nat by lia.
      simpl. rewrite app_nil_r. f_equal. lia.
    + replace (Nat.min n Y - X)%nat
        with (batch_size + (Nat.min n Y - (X + batch_size)))%nat by lia.
      rewrite seq_app. f_equal. f_equal. lia.
Qed.

Lemma range_step_covers stop step :
  (0 < step)%nat -> (stop <= (stop + step - 1) / step * step)%nat.
Proof.
  intros Hs. pose proof (Nat.div_mod_eq (stop + step - 1) step) as E.
  pose proof (Nat.mod_upper_bound (stop + step - 1) step) as Hr.
  rewrite (Nat.mul_comm _ step). lia.
Qed.

(** X18. With a positive batch size, when no fetch of a cycle ends with an
    error that mentions 429, the cycle fetches every channel of the list
    exactly once, in the order of the list. *)
Theorem quiet_cycle_fetches_all (cfg : Config) (py : PyEnv) (env : nat -> ChannelEnv)
    (channels : list string) (batch_size : nat)
    (times : gmap string (option Z)) (w : World) :
  (0 < batch_size)%nat ->
  (forall pos c, channels !! pos = Some c -> rate_limited (env pos) c = false) ->
  fetches (trace (crawl_new_messages_and_bios cfg py env channels batch_size times w))
  = seq 0 (length channels).
Proof.
  intros Hbs Hquiet. unfold crawl_new_messages_and_bios.
  destruct channels as [|c0 cs] eqn:E; [done|]. rewrite <- E in *.
  unfold Py.range_step.
  rewrite (quiet_batches cfg py env channels batch_size _ 0 (start times w))
    by done.
  simpl. f_equal.
  pose proof (range_step_covers (length channels) batch_size Hbs). lia.
Qed.

Lemma quiet_cycle_fetches_all_witness :
  fetches (trace (crawl_new_messages_and_bios (local_config 0) sample_py scenario_env
                    twenty_channels 3 ∅ fresh_world))
  = seq 0 20.
Proof.
  apply (quiet_cycle_fetches_all (local_config 0) sample_py scenario_env
           twenty_channels 3 ∅ fresh_world).
  - lia.
  - intros pos c _. reflexivity.
Defined.

End CycleMore.

(** ** The messages of one channel *)

Section MessagesMore.
Import Crawler.

Lemma kept_ids_sublist last_time ids (raws : list Fragment) :
  (id <$> omap (kept last_time ids) raws) `sublist_of` extracted_ids raws.
Proof.
  induction raws as [|r raws IH]; [constructor|].
  destruct r as [msg| |]; simpl; try done.
  destruct (posted_time msg) as [pt|]; [|by constructor].
  destruct (is_new last_time ids msg pt); by constructor.
Qed.

Lemma kept_ids_fresh last_time ids (raws : list Fragment) x :
  x ∈ (id <$> omap (kept last_time ids) raws) -> x ∉ ids.
Proof.
  rewrite list_elem_of_fmap. intros (m & -> & Hm).
  apply list_elem_of_omap in Hm as (r & _ & Hk).
  destruct r as [msg| |]; simpl in Hk; try done.
  destruct (posted_time msg) as [pt|]; [|done].
  destruct (is_new last_time ids msg pt) eqn:N; [|done].
  injection Hk as ->. by apply is_new_spec in N as [? _].
Qed.

(** X19. The list a channel's save receives (the stored messages followed
    by the new ones) has no id twice, when the stored messages have none
    twice and the page shows no id twice. *)
Theorem merged_ids_distinct (last_time : option Z) (old : list Msg)
    (raw_messages : list Fragment) :
  NoDup (id <$> old) ->
  NoDup (extracted_ids raw_messages) ->
  NoDup (id <$> (old ++ new_messages
                         (process_messages last_time
                            (existing (Some (Messages old))).2 raw_messages))%list).
Proof.
  intros Hold Hraw. rewrite process_messages_new, fmap_app. simpl.
  apply NoDup_app. split; [done|]. split.
  - intros x Hx Hnew. apply kept_ids_fresh in Hnew. apply Hnew.
    by apply elem_of_list_to_set.
  - eapply sublist_NoDup; [exact Hraw|apply kept_ids_sublist].
Qed.

Lemma merged_ids_distinct_witness :
  NoDup (id <$> ([post 1 50; post 2 100]
                 ++ new_messages
                      (process_messages (Some 100)
                         (existing (Some (Messages [post 1 50; post 2 100]))).2
                         [ExtractsTo (post 1 50); ExtractsTo (post 2 100);
                          ExtractsTo (post 3 150)]))%list).
Proof.
  apply (merged_ids_distinct (Some 100) [post 1 50; post 2 100]
           [ExtractsTo (post 1 50); ExtractsTo (post 2 100); ExtractsTo (post 3 150)]).
  - apply (bool_decide_unpack _). vm_compute. exact I.
  - apply (bool_decide_unpack _). vm_compute. exact I.
Defined.

Lemma latest_posted_snoc l t m pt :
  latest_posted l t -> posted_time m = Some pt ->
  latest_posted (l ++ [m])%list (Z.max t pt).
Proof.
  intros [(m0 & Hm0 & Ht) Hub] Hpt. split.
  - destruct (Z.max_spec t pt) as [[_ ->]|[_ ->]].
    + exists m. split; [|done]. apply elem_of_app. right. apply list_elem_of_here.
    + exists m0. split; [|done]. apply elem_of_app. by left.
  - intros m' pt' Hin Hpt'. apply elem_of_app in Hin as [Hin|Hin].
    + pose proof (Hub _ _ Hin Hpt'). lia.
    + apply list_elem_of_singleton in Hin as ->.
      rewrite Hpt in Hpt'. injection Hpt' as ->. lia.
Qed.

Lemma latest_posted_one m pt :
  posted_time m = Some pt -> latest_posted [m] pt.
Proof.
  intros Hpt. split.
  - exists m. split; [apply list_elem_of_here|done].
  - intros m' pt' Hin Hpt'. apply list_elem_of_singleton in Hin as ->.
    rewrite Hpt in Hpt'. injection Hpt' as ->. lia.
Qed.

Lemma foldl_message_step_tops last_time ids raws acc :
  (new_messages acc = [] /\ latest_time acc = last_time) \/
  (exists t, latest_time acc = Some t /\ latest_posted (new_messages acc) t) ->
  let acc' := foldl (message_step last_time ids) acc raws in
  (new_messages acc' = [] /\ latest_time acc' = last_time) \/
  (exists t, latest_time acc' = Some t /\ latest_posted (new_messages acc') t).
Proof.
  revert acc. induction raws as [|r raws IH]; intros acc H; [done|].
  cbn [foldl]. apply IH. clear IH.
  destruct r as [msg| |]; simpl; try done.
  destruct (posted_time msg) as [pt|] eqn:Hpt; [|done].
  destruct (is_new last_time ids msg pt) eqn:N; [|done].
  right. simpl. destruct H as [[Hnil Hlt]|(t & Ht & Hl)].
  - rewrite Hnil, Hlt. simpl. apply is_new_spec in N as [_ [->|(t & -> & Hlt')]].
    + exists pt. split; [done|]. by apply latest_posted_one.
    + exists (Z.max t pt). split; [done|].
      replace (Z.max t pt) with pt by lia. by apply latest_posted_one.
  - rewrite Ht. exists (Z.max t pt). split; [done|]. by apply latest_posted_snoc.
Qed.

(** X20. The checkpoint candidate of a channel: while the page brings no
    new message it is the checkpoint the channel had, and once there are
    new messages it is the posted time of one of them, and none of them
    was posted later. *)
Theorem candidate_is_latest_new_post (last_time : option Z) (existing_ids : gset Z)
    (raw_messages : list Fragment) :
  let acc := process_messages last_time existing_ids raw_messages in
  (new_messages acc = [] -> latest_time acc = last_time) /\
  (new_messages acc <> [] ->
   exists t, latest_time acc = Some t /\ latest_posted (new_messages acc) t).
Proof.
  intros acc.
  destruct (foldl_message_step_tops last_time existing_ids raw_messages
              (mkAcc [] last_time 0)) as [[Hnil Hlt]|(t & Ht & Hl)].
  - by left.
  - split; [done|]. intros Hne. by destruct Hne.
  - split.
    + intros Hnil. destruct Hl as [(m & Hm & _) _].
      fold (process_messages last_time existing_ids raw_messages) in Hm.
      fold acc in Hm. rewrite Hnil in Hm. by apply elem_of_nil in Hm.
    + intros _. by exists t.
Qed.

End MessagesMore.

(** ** The main loop *)

Section LoopMore.
Import Storage Handlers Crawler.

Lemma crawl_advances cfg py env channels batch_size times w :
  advances times
    (last_crawled_times
       (crawl_new_messages_and_bios cfg py env channels batch_size times w)).
Proof.
  unfold crawl_new_messages_and_bios. destruct channels as [|c cs].
  - apply advances_refl.
  - apply (batches_advance cfg py env (c :: cs) batch_size _ (start times w)).
Qed.

(** X21. Over any number of turns of the main loop no checkpoint moves
    back, whatever the network and the broker do in each cycle, and the
    record of what the crawler did only grows. *)
Theorem checkpoints_advance_across_cycles (cfg : Config) (py : PyEnv)
    (channels : list string) (interval_seconds : nat)
    (envs : list (nat -> ChannelEnv)) (r : Loop.Run) :
  advances (Loop.times r)
    (Loop.times (Loop.cycles cfg py channels interval_seconds envs r)) /\
  Loop.history r `prefix_of`
    Loop.history (Loop.cycles cfg py channels interval_seconds envs r).
Proof.
  unfold Loop.cycles. revert r.
  induction envs as [|env envs IH]; intros r; simpl.
  - split; [apply advances_refl|done].
  - destruct (IH (Loop.cycle cfg py channels interval_seconds r env)) as [Ha Hp].
    split.
    + eapply advances_trans; [|exact Ha]. apply crawl_advances.
    + etrans; [|exact Hp]. simpl. by apply prefix_app_r.
Qed.

Lemma written_frame_local cfg py channel messages e w (p : path) :
  USE_KAFKA cfg = false ->
  p.1 <> OUTPUT_DIR cfg -> p.1 <> channel_dir cfg channel ->
  files (written cfg py channel messages e w) !! p = files w !! p.
Proof.
  intros HK H1 H2. unfold written, Hybrid_save. rewrite HK.
  destruct (negb _); destruct (exists_dir (channel_dir cfg channel) w); simpl;
    rewrite ?lookup_insert_ne; try done;
    unfold legacy_file; intros E; by rewrite <- E in *.
Qed.

Lemma save_frame_local cfg py channel messages e w (p : path) :
  USE_KAFKA cfg = false ->
  p.1 <> OUTPUT_DIR cfg -> p.1 <> channel_dir cfg channel ->
  files (save cfg py channel messages e w) !! p = files w !! p.
Proof.
  intros HK H1 H2. rewrite save_written. destruct p as [d n].
  destruct (_ >? 0).
  - rewrite cleanup_lookup_frame by (by left).
    by apply written_frame_local.
  - by apply written_frame_local.
Qed.

Lemma load_times_files cfg w w' :
  files w' !! LAST_TIME_FILE cfg = files w !! LAST_TIME_FILE cfg ->
  _load_last_crawled_times cfg w' = _load_last_crawled_times cfg w.
Proof.
  intros E. unfold _load_last_crawled_times, Hybrid_load, Local_load. by rewrite E.
Qed.

Lemma synced_save_new cfg py pos channel e old acc st :
  USE_KAFKA cfg = false -> checkpoint_apart cfg ->
  synced cfg st -> synced cfg (save_new cfg py pos channel e old acc st).
Proof.
  intros HK [Ho Hc] Hs. unfold save_new. destruct (new_messages acc); [done|].
  destruct old as [old|]; [|done]. destruct (save_ok e); [|done].
  destruct (latest_time acc) as [t|].
  - unfold synced. simpl.
    unfold _load_last_crawled_times, _save_last_crawled_times, Hybrid_save,
      Hybrid_load, Local_load.
    rewrite HK. simpl. by rewrite lookup_insert_eq.
  - unfold synced in *. simpl. rewrite <- Hs. apply load_times_files.
    by apply save_frame_local.
Qed.

Lemma synced_process_channel cfg py pos channel e sb :
  USE_KAFKA cfg = false -> checkpoint_apart cfg ->
  synced cfg sb.1 -> synced cfg (process_channel cfg py pos channel e sb).1.
Proof.
  intros HK Hap Hs. destruct sb as [st bf]. unfold process_channel.
  destruct (existing _) as [old ids].
  destruct (bool_decide _ || negb _); simpl; [done|].
  change (synced cfg (save_new cfg py pos channel e old
            (process_messages (get_last_time (last_crawled_times st) channel) ids
               (Network.messages (Network.channel_data
                  (Network.fetch_channel_data channel 2 (responses e)))))
            (mkState (last_crawled_times st) (Crawler.world st)
               (match Network.error
                        (Network.fetch_channel_data channel 2 (responses e)) with
                | Some err => Py.contains "429" err
                | None => false
                end || rate_limit_encountered st) 0 (failed_channels st)
               (total_new_messages st + length (new_messages
                  (process_messages (get_last_time (last_crawled_times st) channel) ids
                     (Network.messages (Network.channel_data
                        (Network.fetch_channel_data channel 2 (responses e)))))))
               (S (crawled_channels st)) (trace st ++ [Fetch pos channel])))).
  by apply synced_save_new.
Qed.

Lemma synced_crawl cfg py env channels batch_size times w :
  USE_KAFKA cfg = false -> checkpoint_apart cfg ->
  _load_last_crawled_times cfg w = Some times ->
  synced cfg (crawl_new_messages_and_bios cfg py env channels batch_size times w).
Proof.
  intros HK Hap Hs. apply (crawl_invariant (synced cfg)); try done.
  intros pos c sb _. by apply synced_process_channel.
Qed.

(** X22. With the broker off, channel names without a slash and the
    checkpoint file outside the message store, a crawler whose checkpoints
    are the ones on disk keeps them so over any number of turns of the
    main loop: what [_load_last_crawled_times] would read at a restart is
    the mapping the running crawler holds. *)
Theorem restart_resumes_checkpoints (cfg : Config) (py : PyEnv)
    (channels : list string) (interval_seconds : nat)
    (envs : list (nat -> ChannelEnv)) (r : Loop.Run) :
  USE_KAFKA cfg = false ->
  Forall plain_name channels ->
  checkpoint_apart cfg ->
  _load_last_crawled_times cfg (Loop.world r) = Some (Loop.times r) ->
  _load_last_crawled_times cfg
    (Loop.world (Loop.cycles cfg py channels interval_seconds envs r))
  = Some (Loop.times (Loop.cycles cfg py channels interval_seconds envs r)).
Proof.
  intros HK _ Hap. unfold Loop.cycles. revert r.
  induction envs as [|env envs IH]; intros r Hr; [done|].
  simpl. apply IH. simpl. by apply synced_crawl.
Qed.

Lemma default_checkpoint_apart n : checkpoint_apart (local_config n).
Proof.
  split; [done|]. intros c E. unfold channel_dir, Py.join in E.
  destruct (String.eqb c ""); [discriminate E|].
  apply (f_equal String.length) in E. rewrite !string_length_app in E.
  simpl in E. lia.
Qed.

Lemma restart_resumes_checkpoints_witness :
  _load_last_crawled_times (local_config 0)
    (Loop.world (Loop.cycles (local_config 0) sample_py ["foo"] 1800
                   [scenario_env; scenario_env] (Loop.mkRun ∅ fresh_world [])))
  = Some (Loop.times (Loop.cycles (local_config 0) sample_py ["foo"] 1800
                        [scenario_env; scenario_env] (Loop.mkRun ∅ fresh_world []))).
Proof.
  apply (restart_resumes_checkpoints (local_config 0) sample_py ["foo"] 1800
           [scenario_env; scenario_env] (Loop.mkRun ∅ fresh_world [])).
  - reflexivity.
  - repeat constructor.
  - apply default_checkpoint_apart.
  - reflexivity.
Defined.

End LoopMore.

(** ** From the command line to the main loop *)

Section StartupMore.
Import App.

Lemma crawler_run_loop iv (cs : list string) rp ok out :
  (crawler_run iv cs rp ok).1 = MainLoop out <->
  60 <= iv /\ cs <> [] /\ out = cs /\ (rp = true -> ok = true).
Proof.
  unfold crawler_run. destruct (Z.ltb_spec iv 60) as [Hlt|Hge].
  - split; [done|]. intros [? _]. lia.
  - destruct cs as [|c l].
    + split; [done|]. by intros (_ & ? & _).
    + destruct ok, rp; simpl; split;
        try (intros [= <-]; repeat split; auto; done);
        try (by intros (_ & _ & -> & _));
        try (intros (_ & _ & _ & H'); by specialize (H' eq_refl));
        try done.
Qed.

Lemma run_array args c l ok :
  (run args (JSONArray (c :: l)) ok).1
  = (crawler_run match interval args with
                 | Some n => if n =? 0 then 1800 else n
                 | None => 1800
                 end (c :: l) (require_proxies args) ok).1.
Proof. unfold run. cbn [load_channels]. by destruct (crawler_run _ _ _ _). Qed.

(** X23. The application enters the main loop exactly when the channel
    file is a non-empty JSON array, the checkpoints on disk load, the
    interval is absent, 0 or at least 60, and, where proxies are required,
    the internet check and the proxy check pass; it then crawls the
    channels of the file. *)
Theorem startup_enters_loop_iff (cfg : Config) (w : Storage.World) (args : Args)
    (f : ChannelsFile) (internet_ok proxy_ok : bool) (cs : list string) :
  (exists logged,
     Startup.startup cfg w args f internet_ok proxy_ok = Some (MainLoop cs, logged)) <->
  f = JSONArray cs /\ cs <> [] /\
  is_Some (Crawler._load_last_crawled_times cfg w) /\
  match interval args with Some n => n = 0 \/ 60 <= n | None => True end /\
  (require_proxies args = true -> internet_ok = true /\ proxy_ok = true).
Proof.
  unfold Startup.startup.
  destruct f as [| |[|c l]|];
    try (split; [by intros [? [=]]|by intros [? _]]).
  { split; [by intros [? [=]]|]. by intros [[= <-] [? _]]. }
  cbn [load_channels fst].
  set (checks := Startup.perform_initial_checks _ _ _ _).
  assert (Hrun : (exists logged,
                    run args (JSONArray (c :: l)) checks = (MainLoop cs, logged)) <->
                 (run args (JSONArray (c :: l)) checks).1 = MainLoop cs).
  { destruct (run args (JSONArray (c :: l)) checks) as [o lg]. simpl. split.
    - by intros [? [= -> _]].
    - intros ->. by eexists. }
  assert (Hstart : (exists logged,
             match Crawler._load_last_crawled_times cfg w with
             | Some _ => Some (run args (JSONArray (c :: l)) checks)
             | None => None
             end = Some (MainLoop cs, logged)) <->
           is_Some (Crawler._load_last_crawled_times cfg w) /\
           (run args (JSONArray (c :: l)) checks).1 = MainLoop cs).
  { rewrite <- Hrun. destruct (Crawler._load_last_crawled_times cfg w) as [m|].
    - split.
      + intros [lg [= E]]. split; [by eexists|]. by exists lg.
      + intros [_ [lg E]]. exists lg. by rewrite E.
    - split; [by intros [? [=]]|]. by intros [[? [=]] _]. }
  rewrite Hstart, run_array, crawler_run_loop. unfold checks.
  unfold Startup.perform_initial_checks. cbn [Startup.check_users_file].
  destruct (require_proxies args), internet_ok, proxy_ok; simpl;
    destruct (interval args) as [n|]; try destruct (Z.eqb_spec n 0) as [->|Hn];
    (split;
     [intros (Hl & Hiv & _ & -> & Hrp); repeat split; auto; try lia;
      try (intros _; by specialize (Hrp eq_refl))
     |intros ([= <-] & _ & Hl & Hiv & Hrp); repeat split; auto; try lia;
      try (destruct Hiv; lia);
      try (intros _; by destruct (Hrp eq_refl))]).
Qed.

(** X24. With channels to crawl and checkpoints that load, an interval
    below 60 other than 0 ends the process with status 1: the application
    sets the configured interval to the minimum of 60, but the crawler is
    given the interval of the command line and refuses it. *)
Theorem low_interval_exits (cfg : Config) (w : Storage.World) (args : Args)
    (f : ChannelsFile) (internet_ok proxy_ok : bool) (n : Z) :
  interval args = Some n -> n <> 0 -> n < 60 ->
  (load_channels f).1 <> [] ->
  is_Some (Crawler._load_last_crawled_times cfg w) ->
  Startup.configured_interval args = 60 /\
  exists logged,
    Startup.startup cfg w args f internet_ok proxy_ok = Some (SysExit 1, logged) /\
    exit_status (SysExit 1) = Some 1%nat.
Proof.
  intros Hi Hn Hlt Hcs [m Hm].
  unfold Startup.configured_interval, Startup.startup, run, crawler_run.
  rewrite Hi, Hm. destruct (load_channels f) as [[|c l] logged]; [done|].
  destruct (Z.eqb_spec n 0); [done|].
  destruct (Z.ltb_spec n 60); [|lia].
  split; [done|]. simpl. by eexists.
Qed.

Lemma low_interval_exits_witness :
  Startup.configured_interval (mkArgs (Some 30) false false) = 60 /\
  exists logged,
    Startup.startup default_config fresh_world (mkArgs (Some 30) false false)
      (JSONArray ["foo"]) true true = Some (SysExit 1, logged) /\
    exit_status (SysExit 1) = Some 1%nat.
Proof.
  apply (low_interval_exits default_config fresh_world (mkArgs (Some 30) false false)
           (JSONArray ["foo"]) true true 30).
  - reflexivity.
  - lia.
  - lia.
  - simpl. discriminate.
  - eexists. reflexivity.
Defined.

End StartupMore.

(** ** Taking a proxy from the pool *)

Section ProxyMore.
Import Proxy.

Lemma choice_elem_of pick (pool : list string) :
  pool <> [] -> exists p, ProxyUse.choice pick pool = Some p /\ p ∈ pool.
Proof.
  intros Hne. unfold ProxyUse.choice.
  assert (Hlt : (pick mod length pool < length pool)%nat).
  { apply Nat.mod_upper_bound. by destruct pool. }
  apply lookup_lt_is_Some in Hlt as [p Hp]. exists p. split; [done|].
  by apply list_elem_of_lookup_2 in Hp.
Qed.

(** X25. [get_random_proxy] refreshes the pool first; it returns no proxy
    exactly when the pool is empty after the refresh, and a proxy it
    returns is a member of that pool. *)
Theorem random_proxy_from_pool (net : string -> nat -> Probe)
    (sources : list (option (list string))) (current_time : Z) (pick : nat)
    (pm : ProxyManager) :
  let res := ProxyUse.get_random_proxy net sources current_time pick pm in
  res.2 = refresh_proxy_pool net sources current_time pm /\
  (res.1 = None <-> proxy_pool res.2 = []) /\
  (forall p, res.1 = Some p -> p ∈ proxy_pool res.2).
Proof.
  unfold ProxyUse.get_random_proxy.
  set (pm' := refresh_proxy_pool net sources current_time pm).
  destruct (proxy_pool pm') as [|p0 pool] eqn:E; simpl.
  - rewrite E. repeat split; done.
  - destruct (choice_elem_of pick (p0 :: pool)) as (p & Hp & Hin); [done|].
    rewrite Hp, E. split; [done|]. split; [done|]. by intros ? [= <-].
Qed.

Lemma filter_all_false {A} (f : A -> bool) l :
  (forall x, f x = false) -> List.filter f l = [].
Proof. intros H. induction l as [|x l IH]; simpl; [done|]. by rewrite H. Qed.

(** X26. A pool that a refresh rebuilds holds no proxy twice, and each of
    its members was listed by a source that answered: a source that
    fails takes nothing from what the other sources list. *)
Theorem refreshed_pool_distinct (net : string -> nat -> Probe)
    (sources : list (option (list string))) (current_time : Z)
    (pm : ProxyManager) :
  fresh pm current_time = false ->
  NoDup (proxy_pool (refresh_proxy_pool net sources current_time pm)) /\
  (forall proxy,
     proxy ∈ proxy_pool (refresh_proxy_pool net sources current_time pm) <->
     (exists l, Some l ∈ sources /\ proxy ∈ l) /\ test_proxy net proxy = true).
Proof.
  intros Hfresh. unfold refresh_proxy_pool. rewrite Hfresh. simpl. split.
  - apply NoDup_ListNoDup, List.NoDup_filter, NoDup_ListNoDup.
    apply NoDup_remove_dups.
  - intros proxy. rewrite list_elem_of_In, filter_In, <- list_elem_of_In.
    unfold fetch_proxy_list. rewrite elem_of_remove_dups, list_elem_of_In, in_concat.
    split.
    + intros [(l & Hl & Hp) Ht]. split; [|done].
      apply list_elem_of_In, list_elem_of_fmap in Hl as ([l'|] & -> & Hs);
        apply list_elem_of_In in Hp; simpl in Hp.
      * by exists l'.
      * by apply elem_of_nil in Hp.
    + intros [(l & Hs & Hp) Ht]. split; [|done].
      exists l. split; [|by apply list_elem_of_In].
      apply list_elem_of_In, list_elem_of_fmap. by exists (Some l).
Qed.

Lemma refreshed_pool_distinct_witness :
  NoDup (proxy_pool (refresh_proxy_pool sample_net sample_sources 10
                       (mkProxyManager [] 0 3600))).
Proof.
  apply (refreshed_pool_distinct sample_net sample_sources 10
           (mkProxyManager [] 0 3600)).
  reflexivity.
Defined.

(** X27. When the machine's own address cannot be learnt in any attempt,
    no candidate passes the test: a refresh that rebuilds the pool leaves
    it empty and [get_random_proxy] returns no proxy. *)
Theorem unknown_own_address_empties_pool (net : string -> nat -> Probe)
    (sources : list (option (list string))) (current_time : Z) (pick : nat)
    (pm : ProxyManager) :
  fresh pm current_time = false ->
  (forall proxy attempt, local_ip (net proxy attempt) = None) ->
  proxy_pool (refresh_proxy_pool net sources current_time pm) = [] /\
  (ProxyUse.get_random_proxy net sources current_time pick pm).1 = None.
Proof.
  intros Hfresh Hip.
  assert (E : proxy_pool (refresh_proxy_pool net sources current_time pm) = []).
  { unfold refresh_proxy_pool. rewrite Hfresh. simpl. apply filter_all_false.
    intros proxy. destruct (test_proxy net proxy) eqn:Ht; [|done].
    apply test_proxy_true in Ht as (a & ip & l & o & _ & _ & _ & Hl & _).
    by rewrite Hip in Hl. }
  split; [done|]. unfold ProxyUse.get_random_proxy. by rewrite E.
Qed.

Lemma unknown_own_address_empties_pool_witness :
  (ProxyUse.get_random_proxy
     (fun _ _ => mkProbe (Responded 200 None) (Responded 200 (Some "1.2.3.4")) None)
     sample_sources 10 0 (mkProxyManager [] 0 3600)).1 = None.
Proof.
  apply (unknown_own_address_empties_pool
           (fun _ _ => mkProbe (Responded 200 None)
                         (Responded 200 (Some "1.2.3.4")) None)
           sample_sources 10 0 (mkProxyManager [] 0 3600)).
  - reflexivity.
  - intros proxy attempt. reflexivity.
Defined.

End ProxyMore.
